(** * Turn controller of the Twilio voice relay

    A shallow embedding of the relay's WebSocket message handler and of its
    helpers [whisperSTT], [chatReply] and [elevenTTS].

    The handler is an [async] function: it runs until it reaches an [await],
    is suspended there, and other handler invocations run in the meantime.
    The model is an interleaving machine: the state holds the four
    connection-keyed maps of the program, the history arrays they point to,
    and the list of suspended handler invocations; a step is either the
    arrival of a transport message or the resumption of one suspended
    invocation with the outcome the outside world produced for it.

    Conventions. An invocation that awaits a request and then the reading
    of the response body touches no state between the two; they are one
    resumption. What the outside world decides (the responses of the three
    providers, whether an ffmpeg command succeeds, the clock) comes with
    the step. Incoming messages are well-formed JSON with the fields of
    their event, and [ws.send] succeeds. Temporary files are not part of
    the state; the one fact used about them is that the mp3 file of a run
    exists when, and only when, [elevenTTS] wrote it in that run. The two
    logs [sent] and [calls] record what the handler sends and requests;
    the program does not read them. *)

From stdpp Require Import gmap strings list fin_maps.
From Equations Require Import Equations.
From Stdlib Require Import Ascii ZArith Lia.

Open Scope string_scope.
Open Scope list_scope.
Open Scope nat_scope.
Open Scope stdpp_scope.

(** ** JavaScript values and array methods used by the program *)

Module JS.

(** [Array.prototype.push]. *)
Definition push {A} (a : list A) (x : A) : list A := a ++ [x].

(** [Array.prototype.slice(start)]: a negative [start] counts from the
    end, and the result is clamped to the array. *)
Definition slice {A} (a : list A) (start : Z) : list A :=
  let len := Z.of_nat (length a) in
  let k := if (start <? 0)%Z then Z.max (len + start) 0 else Z.min start len in
  drop (Z.to_nat k) a.

(** [Array.prototype.splice(start, deleteCount, ...items)] for a
    non-negative [start]: [start] is clamped to the length and
    [deleteCount] to the interval from 0 to what is left after [start]. *)
Definition splice {A} (a : list A) (start : nat) (deleteCount : Z)
    (items : list A) : list A :=
  let s := Nat.min start (length a) in
  let dc := Z.to_nat (Z.min (Z.max deleteCount 0) (Z.of_nat (length a - s))) in
  take s a ++ items ++ drop (s + dc) a.

(** A string is truthy when it is not empty. *)
Definition truthy (s : string) : bool :=
  match s with EmptyString => false | _ => true end.

(** [v || d] for a [v] that is a string or [undefined]. *)
Definition or_else (v : option string) (d : string) : string :=
  match v with
  | Some s => if truthy s then s else d
  | None => d
  end.

(** The numbers stored in [speakingUntil]: a millisecond timestamp or
    [Infinity]. *)
Inductive number := Finite (t : Z) | Infinity.

(** What an awaited call can do: throw, or return a value. *)
Inductive completion (A : Type) := Throws | Returns (v : A).
Arguments Throws {A}.
Arguments Returns {A} v.

(** What an awaited [fetch] followed by the reading of its body can
    produce: the promise is rejected (network failure, or a body that
    cannot be parsed), or there is a response with its [ok] flag and the
    part of the body the program reads. *)
Inductive response (A : Type) := Rejected | Response (ok : bool) (body : A).
Arguments Rejected {A}.
Arguments Response {A} ok body.

End JS.

Import JS.

(** ** Conversation history *)

Record message := mk_message { role : string; content : string }.

Definition brain_fart : string := "Sorry, I had a brain fart.".
Definition missed_that : string := "Sorry, I missed that.".

(** The [while (history.length > 21) history.splice(1, 1)] loop. *)
Equations? shift_oldest (history : list message) : list message
    by wf (length history) lt :=
  shift_oldest history with decide (21 < length history) => {
    | left _ => shift_oldest (splice history 1 1 []);
    | right _ => history }.
Proof.
  unfold splice. rewrite !length_app, length_take, length_drop.
  cbn [length]. lia.
Qed.

(** The block under "Prune history if too long (keep system + last 10)". *)
Definition prune (history : list message) : list message :=
  if decide (11 < length history) then
    let recent := slice history (Z.of_nat (length history) - 10) in
    let history1 :=
      splice history 1 (Z.of_nat (length history) - 1 - 10) recent in
    shift_oldest history1
  else history.

(** [chatReply(text, history)] up to its first [await]: the user message
    is pushed, and the request body is built from the array as it then is. *)
Definition chatReply_request (text : string) (history : list message)
    : list message :=
  push history (mk_message "user" text).

(** [chatReply] from the [await] on. The body read from the response is
    [json.choices?.[0]?.message?.content]. The result is the array as the
    function leaves it, and what the function returns or that it throws. *)
Definition chatReply_response (r : response (option string))
    (history : list message) : list message * completion string :=
  match r with
  | Rejected => (history, Throws)
  | Response false _ => (history, Returns brain_fart)
  | Response true body =>
      let reply := or_else body missed_that in
      let history1 := push history (mk_message "assistant" reply) in
      (prune history1, Returns reply)
  end.

(** [chatReply] when nothing else touches the array while it is suspended. *)
Definition chatReply (text : string) (r : response (option string))
    (history : list message) : list message * completion string :=
  chatReply_response r (chatReply_request text history).

(** The two operations of the history store, as [chatReply] performs them. *)
Inductive store_op := Append (m : message) | Prune.

Definition apply_op (history : list message) (op : store_op) : list message :=
  match op with
  | Append m => push history m
  | Prune => prune history
  end.

Definition apply_ops (ops : list store_op) (history : list message)
    : list message :=
  fold_left apply_op ops history.

(** ** The relay with conversation memory and end-of-playback marks *)

Module Relay.

(** A connection is named by a number standing for the identity of its
    WebSocket object, the key of the four maps. *)
Definition conn := nat.

(** A history array is named by the connection whose [connection]
    handler allocated it; no other code allocates one. *)
Definition ref := nat.

(** [Buffer.from(payload, 'base64')], kept symbolic. *)
Inductive Buffer := Buffer_from (payload : string).

(** The transport messages, after [JSON.parse]: the [event] field and the
    fields the handler reads. [streamSid] is [data?.start?.streamSid]. *)
Inductive event :=
| EvStart (streamSid : option string)
| EvMedia (payload : string)
| EvMark
| EvStop
| EvOther (name : string).

(** What [ws.send] is given. *)
Inductive outmsg :=
| MediaOut (streamSid : option string) (payload : string)
| MarkOut (streamSid : option string) (name : string).

(** The calls that leave the handler, tagged with the connection whose
    handler makes them: the transcoding of the flushed frames to WAV
    ([Buffer.concat(buffers)] written out and given to ffmpeg), and the
    requests of [whisperSTT], [chatReply] and [elevenTTS]. *)
Inductive call :=
| ToWav (ws : conn) (buffers : list Buffer)
| Whisper (ws : conn)
| Chat (ws : conn) (messages : list message)
| Eleven (ws : conn) (text : string).

(** A suspended handler invocation, named by the [await] it waits at. *)
Inductive task :=
| GreetDelay (ws : conn) (streamSid : option string)
| GreetTTS (ws : conn) (streamSid : option string)
| AwaitSTT (ws : conn)
| AwaitChat (ws : conn) (history : ref)
| AwaitTTS (ws : conn).

Record state := mk_state {
  audioChunks : gmap conn (list Buffer);
  streamIds : gmap conn string;
  speakingUntil : gmap conn number;
  conversationHistory : gmap conn ref;
  arrays : gmap ref (list message);
  pending : list task;
  sent : list (conn * outmsg);
  calls : list call }.

Definition initial : state :=
  mk_state ∅ ∅ ∅ ∅ ∅ [] [] [].

Definition set_audioChunks (m : gmap conn (list Buffer)) (s : state) :=
  mk_state m (streamIds s) (speakingUntil s) (conversationHistory s)
    (arrays s) (pending s) (sent s) (calls s).
Definition set_streamIds (m : gmap conn string) (s : state) :=
  mk_state (audioChunks s) m (speakingUntil s) (conversationHistory s)
    (arrays s) (pending s) (sent s) (calls s).
Definition set_speakingUntil (m : gmap conn number) (s : state) :=
  mk_state (audioChunks s) (streamIds s) m (conversationHistory s)
    (arrays s) (pending s) (sent s) (calls s).
Definition set_conversationHistory (m : gmap conn ref) (s : state) :=
  mk_state (audioChunks s) (streamIds s) (speakingUntil s) m
    (arrays s) (pending s) (sent s) (calls s).
Definition set_arrays (m : gmap ref (list message)) (s : state) :=
  mk_state (audioChunks s) (streamIds s) (speakingUntil s)
    (conversationHistory s) m (pending s) (sent s) (calls s).
Definition set_pending (l : list task) (s : state) :=
  mk_state (audioChunks s) (streamIds s) (speakingUntil s)
    (conversationHistory s) (arrays s) l (sent s) (calls s).

(** [ws.send(JSON.stringify(m))], on a socket that is open. *)
Definition send (ws : conn) (m : outmsg) (s : state) :=
  mk_state (audioChunks s) (streamIds s) (speakingUntil s)
    (conversationHistory s) (arrays s) (pending s)
    (sent s ++ [(ws, m)]) (calls s).

Definition log (c : call) (s : state) :=
  mk_state (audioChunks s) (streamIds s) (speakingUntil s)
    (conversationHistory s) (arrays s) (pending s) (sent s)
    (calls s ++ [c]).

(** The invocation reaches an [await] and is suspended there. *)
Definition suspend (t : task) (s : state) := set_pending (pending s ++ [t]) s.

Definition system_prompt : string :=
    String.concat (String "034"%char EmptyString)
    ["You are Steve, Nick Lariccia's personal AI assistant. 
    
    IDENTITY:
    - Name: Steve
    - Vibe: Enthusiastic, resourceful, proactive. MacGyver energy.
    - User: Nick (Radiologist, dad of 3 boys, loves tech/woodworking).
    - Mode: Voice call (keep replies SHORT and CONVERSATIONAL. No lists, no markdown).
    
    CAPABILITIES:
    - You are running on a lightweight relay server.
    - You DO NOT have access to live tools (weather, calendar, email) right now.
    - If asked for weather/news: ";
     "I can't check live data on this line yet, but I'll note it for later.";
     "
    - If asked ";
     "who are you";
     " or ";
     "what model";
     ": ";
     "I'm Steve, your custom assistant. Running on a lightweight voice relay right now.";
     "
    
    GOAL:
    - Be helpful, friendly, and brief. 1-2 sentences max usually.
    - Remember what was just said (maintain context).
    "].

Definition preamble : message := mk_message "system" system_prompt.

Definition greeting : string := "Hey, this is Steve.".

(** [wss.on('connection')] for a new WebSocket object. *)
Definition on_connection (ws : conn) (s : state) : option state :=
  match arrays s !! ws with
  | Some _ => None
  | None =>
      Some (set_conversationHistory (<[ws := ws]> (conversationHistory s))
              (set_arrays (<[ws := [preamble]]> (arrays s)) s))
  end.

(** The test at the head of the [media] branch: [speakingUntil] has the
    connection, and the value is [Infinity] or later than [Date.now()]. *)
Definition muted (s : state) (ws : conn) (now : Z) : bool :=
  match speakingUntil s !! ws with
  | Some Infinity => true
  | Some (Finite until) => bool_decide (now < until)%Z
  | None => false
  end.

(** The [start] branch up to its first [await] (the 400 ms delay). *)
Definition on_start (ws : conn) (streamSid : option string) (s : state)
    : state :=
  let s1 :=
    match streamSid with
    | Some sid =>
        if truthy sid then set_streamIds (<[ws := sid]> (streamIds s)) s
        else s
    | None => s
    end in
  suspend (GreetDelay ws streamSid) s1.

(** The [media] branch up to its first [await]. [wav_ok] tells whether
    the ffmpeg command that turns the raw frames into a WAV file
    succeeds; when it does not, [execSync] throws and the [catch] at the
    end of the branch logs the error. *)
Definition on_media (ws : conn) (payload : string) (now : Z)
    (wav_ok : bool) (s : state) : state :=
  if muted s ws now then s
  else
    let chunks :=
      push (default [] (audioChunks s !! ws)) (Buffer_from payload) in
    if decide (60 ≤ length chunks) then
      let buffers := chunks in
      let s1 := set_audioChunks (<[ws := []]> (audioChunks s)) s in
      let s2 := log (ToWav ws buffers) s1 in
      if wav_ok then suspend (AwaitSTT ws) (log (Whisper ws) s2) else s2
    else set_audioChunks (<[ws := chunks]> (audioChunks s)) s.

(** The [mark] branch. *)
Definition on_mark (ws : conn) (now : Z) (s : state) : state :=
  set_speakingUntil (<[ws := Finite (now + 2000)]> (speakingUntil s)) s.

(** The [stop] branch. *)
Definition on_stop (ws : conn) (s : state) : state :=
  set_audioChunks (delete ws (audioChunks s))
    (set_streamIds (delete ws (streamIds s))
       (set_speakingUntil (delete ws (speakingUntil s))
          (set_conversationHistory (delete ws (conversationHistory s)) s))).

(** [ws.on('message')] from its entry to its first [await] or its end. *)
Definition on_message (ws : conn) (ev : event) (now : Z) (wav_ok : bool)
    (s : state) : state :=
  match ev with
  | EvStart streamSid => on_start ws streamSid s
  | EvMedia payload => on_media ws payload now wav_ok s
  | EvMark => on_mark ws now s
  | EvStop => on_stop ws s
  | EvOther _ => s
  end.

(** What the outside world hands to a suspended invocation. For
    [Synthesized], [r] is the response to [elevenTTS]'s request, [mulaw]
    is what the ffmpeg conversion of the written mp3 file followed by
    [readFileSync(...).toString('base64')] gives ([None] when it throws),
    and [tone] is the same for the two ffmpeg commands of the fallback
    tone. *)
Inductive outcome :=
| TimerFired
| Transcribed (r : response (option string))
| Replied (r : response (option string))
| Synthesized (r : response unit) (mulaw tone : option string).

(** [whisperSTT]: [json.text || ''], whatever [resp.ok] is. *)
Definition whisperSTT (r : response (option string)) : completion string :=
  match r with
  | Rejected => Throws
  | Response _ text => Returns (or_else text "")
  end.

(** [elevenTTS]: returns without writing [outPath] when the response is
    not ok, writes it otherwise. The result tells whether the file was
    written. *)
Definition elevenTTS (r : response unit) : completion bool :=
  match r with
  | Rejected => Throws
  | Response ok _ => Returns ok
  end.

(** [execSync(`ffmpeg -i ${mp3Path} ...`)] and the reading of its output.
    The paths of a run carry its own time stamp; the mp3 file exists
    exactly when this run's [elevenTTS] wrote it, and ffmpeg fails on a
    missing input. *)
Definition to_mulaw (written : bool) (mulaw : option string)
    : completion string :=
  if written then
    match mulaw with Some audio => Returns audio | None => Throws end
  else Throws.

Definition synthesize (r : response unit) (mulaw : option string)
    : completion string :=
  match elevenTTS r with
  | Throws => Throws
  | Returns written => to_mulaw written mulaw
  end.

(** The suspended invocation [t] continues with [o], up to its next
    [await] or its end. [None]: [o] is not what [t] waits for. *)
Definition continue (t : task) (o : outcome) (now : Z) (s : state)
    : option state :=
  match t, o with
  | GreetDelay ws streamSid, TimerFired =>
      Some (suspend (GreetTTS ws streamSid) (log (Eleven ws greeting) s))
  | GreetTTS ws streamSid, Synthesized r mulaw tone =>
      let s1 :=
        match synthesize r mulaw with
        | Returns mulawAudio =>
            let s' := send ws (MediaOut streamSid mulawAudio) s in
            set_speakingUntil
              (<[ws := Finite (now + 2500)]> (speakingUntil s')) s'
        | Throws =>
            match tone with
            | Some toneAudio => send ws (MediaOut streamSid toneAudio) s
            | None => s
            end
        end in
      Some (set_audioChunks (<[ws := []]> (audioChunks s1)) s1)
  | AwaitSTT ws, Transcribed r =>
      match whisperSTT r with
      | Throws => Some s
      | Returns transcript =>
          if truthy transcript then
            match conversationHistory s !! ws with
            | None => Some s
            | Some h =>
                history ← arrays s !! h;
                let history1 := chatReply_request transcript history in
                Some (suspend (AwaitChat ws h)
                        (log (Chat ws history1)
                           (set_arrays (<[h := history1]> (arrays s)) s)))
            end
          else Some s
      end
  | AwaitChat ws h, Replied r =>
      history ← arrays s !! h;
      match chatReply_response r history with
      | (history1, Returns replyText) =>
          Some (suspend (AwaitTTS ws)
                  (log (Eleven ws replyText)
                     (set_arrays (<[h := history1]> (arrays s)) s)))
      | (history1, Throws) =>
          Some (set_arrays (<[h := history1]> (arrays s)) s)
      end
  | AwaitTTS ws, Synthesized r mulaw _ =>
      match synthesize r mulaw with
      | Returns mulawAudio =>
          let streamSid := streamIds s !! ws in
          let s1 := send ws (MediaOut streamSid mulawAudio) s in
          let s2 := send ws (MarkOut streamSid "reply_complete") s1 in
          Some (set_speakingUntil (<[ws := Infinity]> (speakingUntil s2)) s2)
      | Throws => Some s
      end
  | _, _ => None
  end.

(** The steps of the machine. *)
Inductive label :=
| Connection (ws : conn)
| Incoming (ws : conn) (ev : event) (now : Z) (wav_ok : bool)
| Resume (i : nat) (o : outcome) (now : Z).

Definition step (s : state) (l : label) : option state :=
  match l with
  | Connection ws => on_connection ws s
  | Incoming ws ev now wav_ok => Some (on_message ws ev now wav_ok s)
  | Resume i o now =>
      t ← pending s !! i;
      continue t o now (set_pending (delete i (pending s)) s)
  end.

Fixpoint run (s : state) (ls : list label) : option state :=
  match ls with
  | [] => Some s
  | l :: ls' => s' ← step s l; run s' ls'
  end.

(** The frames [ps] arrive one after the other as [media] messages, each
    with the time of its arrival. *)
Definition feed (ws : conn) (wav_ok : bool) (ps : list (string * Z))
    : list label :=
  map (λ p, Incoming ws (EvMedia p.1) p.2 wav_ok) ps.

(** The pipeline runs of a connection that have started and not ended. *)
Definition pipeline_of (ws : conn) (t : task) : bool :=
  match t with
  | AwaitSTT w | AwaitChat w _ | AwaitTTS w => bool_decide (w = ws)
  | GreetDelay _ _ | GreetTTS _ _ => false
  end.

Definition in_flight (s : state) (ws : conn) : nat :=
  length (List.filter (pipeline_of ws) (pending s)).

(** The frames buffered for a connection: [audioChunks.get(ws)], and no
    frame when the map does not have the connection. *)
Definition buffered (s : state) (ws : conn) : list Buffer :=
  default [] (audioChunks s !! ws).

(** The frame sequences handed to the transcoder for a connection, in the
    order of the flushes. *)
Definition handed_by (ws : conn) (c : call) : option (list Buffer) :=
  match c with
  | ToWav w buffers => if bool_decide (w = ws) then Some buffers else None
  | _ => None
  end.

Definition handed (s : state) (ws : conn) : list (list Buffer) :=
  omap (handed_by ws) (calls s).

(** The steps that set the buffer of a connection to no frames without
    handing them on: its [stop] message, and the end of its greeting. *)
Definition resets_buffer (s : state) (ws : conn) (l : label) : bool :=
  match l with
  | Incoming w EvStop _ _ => bool_decide (w = ws)
  | Incoming _ _ _ _ | Connection _ => false
  | Resume i _ _ =>
      match pending s !! i with
      | Some (GreetTTS w _) => bool_decide (w = ws)
      | _ => false
      end
  end.

Definition media_for (ws : conn) (l : label) : bool :=
  match l with
  | Incoming w (EvMedia _) _ _ => bool_decide (w = ws)
  | _ => false
  end.

(** The steps that can change the buffer of a connection. *)
Definition touches_buffer (s : state) (ws : conn) (l : label) : bool :=
  media_for ws l || resets_buffer s ws l.




(** Every history array starts with the preamble. *)
Definition histories_ok (s : state) : Prop :=
  ∀ h history, arrays s !! h = Some history → head history = Some preamble.

(** The state a run of steps from [initial] leads to. *)
Definition after (ls : list label) : state := default initial (run initial ls).

(** [n] frames, 20 ms apart, the first at [t0]. *)
Definition frames (n : nat) (t0 : Z) : list (string * Z) :=
  map (λ k, ("AAAA", (t0 + 20 * Z.of_nat k)%Z)) (seq 0 n).

(** A call is answered, the stream starts, and the greeting is played:
    the connection is muted until 3400. *)
Definition greeted : list label :=
  [Connection 0;
   Incoming 0 (EvStart (Some "MZ1")) 0 true;
   Resume 0 TimerFired 400;
   Resume 0 (Synthesized (Response true ()) (Some "GREETING") None) 900].

(** After the greeting the caller speaks for 60 frames: a run starts and
    waits for the transcript. *)
Definition first_utterance : list label :=
  greeted ++ feed 0 true (frames 60 3400).

(** The caller goes on speaking for 60 more frames before the transcript
    of the first 60 has arrived. *)
Definition overlapping_utterances : list label :=
  first_utterance ++ feed 0 true (frames 60 4600).

(** The transcript arrives, then the chat request is answered by an error
    status, then the synthesis request succeeds. *)
Definition chat_failure : list label :=
  first_utterance ++
  [Resume 0 (Transcribed (Response true (Some "turn the lights on"))) 5000;
   Resume 0 (Replied (Response false None)) 5600;
   Resume 0 (Synthesized (Response true ()) (Some "REPLY") None) 6100].

(** The transcript and the reply arrive, then the synthesis request is
    answered by an error status. *)
Definition synthesis_failure : list label :=
  first_utterance ++
  [Resume 0 (Transcribed (Response true (Some "turn the lights on"))) 5000;
   Resume 0 (Replied (Response true (Some "Sure thing."))) 5600;
   Resume 0 (Synthesized (Response false ()) (Some "REPLY") (Some "TONE")) 6100].


(** A connection is opened and frames arrive before any [start]. *)
Definition media_before_start (n : nat) : list label :=
  Connection 0 :: feed 0 true (frames n 0).

End Relay.

(** ** The relay without memory and without marks ([server.js]) *)

Module Basic.

Import Relay.

(** A suspended handler invocation, named by the [await] it waits at. *)
Inductive task :=
| GreetDelay (ws : conn) (streamSid : option string)
| GreetTTS (ws : conn) (streamSid : option string)
| AwaitSTT (ws : conn)
| AwaitChat (ws : conn)
| AwaitTTS (ws : conn).

Record state := mk_state {
  audioChunks : gmap conn (list Buffer);
  streamIds : gmap conn string;
  pending : list task;
  sent : list (conn * outmsg);
  calls : list call }.

Definition initial : state := mk_state ∅ ∅ [] [] [].

Definition set_audioChunks (m : gmap conn (list Buffer)) (s : state) :=
  mk_state m (streamIds s) (pending s) (sent s) (calls s).
Definition set_streamIds (m : gmap conn string) (s : state) :=
  mk_state (audioChunks s) m (pending s) (sent s) (calls s).
Definition set_pending (l : list task) (s : state) :=
  mk_state (audioChunks s) (streamIds s) l (sent s) (calls s).
Definition send (ws : conn) (m : outmsg) (s : state) :=
  mk_state (audioChunks s) (streamIds s) (pending s) (sent s ++ [(ws, m)])
    (calls s).
Definition log (c : call) (s : state) :=
  mk_state (audioChunks s) (streamIds s) (pending s) (sent s) (calls s ++ [c]).
Definition suspend (t : task) (s : state) := set_pending (pending s ++ [t]) s.

Definition system_message : message :=
  mk_message "system"
    "You are Steve, a helpful assistant. Keep replies concise for phone.".

(** [chatReply(text)]: the request carries the system message and the
    user's text; an error status is logged and the reply is read from the
    body all the same. *)
Definition chat_messages (text : string) : list message :=
  [system_message; mk_message "user" text].

Definition chatReply (r : response (option string)) : completion string :=
  match r with
  | Rejected => Throws
  | Response _ body => Returns (or_else body missed_that)
  end.

Definition on_start (ws : conn) (streamSid : option string) (s : state)
    : state :=
  let s1 :=
    match streamSid with
    | Some sid =>
        if truthy sid then set_streamIds (<[ws := sid]> (streamIds s)) s
        else s
    | None => s
    end in
  suspend (GreetDelay ws streamSid) s1.

Definition on_media (ws : conn) (payload : string) (wav_ok : bool)
    (s : state) : state :=
  let chunks :=
    push (default [] (audioChunks s !! ws)) (Buffer_from payload) in
  if decide (60 ≤ length chunks) then
    let buffers := chunks in
    let s1 := set_audioChunks (<[ws := []]> (audioChunks s)) s in
    let s2 := log (ToWav ws buffers) s1 in
    if wav_ok then suspend (AwaitSTT ws) (log (Whisper ws) s2) else s2
  else set_audioChunks (<[ws := chunks]> (audioChunks s)) s.

Definition on_stop (ws : conn) (s : state) : state :=
  set_audioChunks (delete ws (audioChunks s))
    (set_streamIds (delete ws (streamIds s)) s).

Definition on_message (ws : conn) (ev : event) (wav_ok : bool) (s : state)
    : state :=
  match ev with
  | EvStart streamSid => on_start ws streamSid s
  | EvMedia payload => on_media ws payload wav_ok s
  | EvStop => on_stop ws s
  | EvMark | EvOther _ => s
  end.

Definition continue (t : task) (o : outcome) (s : state) : option state :=
  match t, o with
  | GreetDelay ws streamSid, TimerFired =>
      Some (suspend (GreetTTS ws streamSid) (log (Eleven ws greeting) s))
  | GreetTTS ws streamSid, Synthesized r mulaw tone =>
      let s1 :=
        match synthesize r mulaw with
        | Returns mulawAudio => send ws (MediaOut streamSid mulawAudio) s
        | Throws =>
            match tone with
            | Some toneAudio => send ws (MediaOut streamSid toneAudio) s
            | None => s
            end
        end in
      Some (set_audioChunks (<[ws := []]> (audioChunks s1)) s1)
  | AwaitSTT ws, Transcribed r =>
      match whisperSTT r with
      | Throws => Some s
      | Returns transcript =>
          if truthy transcript then
            Some (suspend (AwaitChat ws)
                    (log (Chat ws (chat_messages transcript)) s))
          else Some s
      end
  | AwaitChat ws, Replied r =>
      match chatReply r with
      | Returns replyText =>
          Some (suspend (AwaitTTS ws) (log (Eleven ws replyText) s))
      | Throws => Some s
      end
  | AwaitTTS ws, Synthesized r mulaw _ =>
      match synthesize r mulaw with
      | Returns mulawAudio =>
          Some (send ws (MediaOut (streamIds s !! ws) mulawAudio) s)
      | Throws => Some s
      end
  | _, _ => None
  end.

Inductive label :=
| Incoming (ws : conn) (ev : event) (wav_ok : bool)
| Resume (i : nat) (o : outcome).

Definition step (s : state) (l : label) : option state :=
  match l with
  | Incoming ws ev wav_ok => Some (on_message ws ev wav_ok s)
  | Resume i o =>
      t ← pending s !! i;
      continue t o (set_pending (delete i (pending s)) s)
  end.

Fixpoint run (s : state) (ls : list label) : option state :=
  match ls with
  | [] => Some s
  | l :: ls' => s' ← step s l; run s' ls'
  end.

Definition feed (ws : conn) (wav_ok : bool) (ps : list string) : list label :=
  map (λ p, Incoming ws (EvMedia p) wav_ok) ps.

Definition pipeline_of (ws : conn) (t : task) : bool :=
  match t with
  | AwaitSTT w | AwaitChat w | AwaitTTS w => bool_decide (w = ws)
  | GreetDelay _ _ | GreetTTS _ _ => false
  end.

Definition in_flight (s : state) (ws : conn) : nat :=
  length (List.filter (pipeline_of ws) (pending s)).

Definition buffered (s : state) (ws : conn) : list Buffer :=
  default [] (audioChunks s !! ws).

End Basic.

(** ** Configuration and the voice webhook *)

Module Config.

(** Strings are sequences of code units; the ones of this model are below
    256. Of the code units JavaScript takes as white space or line
    terminators, these are below 256: 9 to 13, 32 and 160. *)
Definition is_space (c : ascii) : bool :=
  let n := nat_of_ascii c in
  (Nat.leb 9 n && Nat.leb n 13) || Nat.eqb n 32 || Nat.eqb n 160.

Fixpoint trimStart (s : string) : string :=
  match s with
  | EmptyString => EmptyString
  | String c s' => if is_space c then trimStart s' else s
  end.

Fixpoint trimEnd (s : string) : string :=
  match s with
  | EmptyString => EmptyString
  | String c s' =>
      match trimEnd s' with
      | EmptyString => if is_space c then EmptyString else String c EmptyString
      | t => String c t
      end
  end.

(** [String.prototype.trim]. *)
Definition trim (s : string) : string := trimEnd (trimStart s).

(** [s.slice(n)] for [n] from 0 to the length of [s]. *)
Fixpoint slice_from (n : nat) (s : string) : string :=
  match n, s with
  | 0, _ => s
  | S n', String _ s' => slice_from n' s'
  | S _, EmptyString => EmptyString
  end.

(** [s.startsWith(p)]. *)
Fixpoint startsWith (s p : string) {struct p} : bool :=
  match p, s with
  | EmptyString, _ => true
  | String a p', String b s' => Ascii.eqb a b && startsWith s' p'
  | String _ _, EmptyString => false
  end.

(** [cleanVar(val, prefix)]; [val] is [undefined] when the variable is not
    set. *)
Definition cleanVar (val : option string) (prefix : string) : string :=
  let v := trim (or_else val "") in
  if truthy prefix && startsWith v (prefix +:+ "=") then
    trim (slice_from (String.length prefix + 1) v)
  else v.

(** [s.split(',')]. *)
Fixpoint split_comma (s : string) : list string :=
  match s with
  | EmptyString => [EmptyString]
  | String c s' =>
      if Ascii.eqb c ","%char then EmptyString :: split_comma s'
      else
        match split_comma s' with
        | h :: t => String c h :: t
        | [] => [String c EmptyString]
        end
  end.

(** [new Set(CALLER_WHITELIST.split(',').map(s => s.trim()).filter(Boolean))]. *)
Definition whitelist_entries (CALLER_WHITELIST : string) : list string :=
  List.filter truthy (map trim (split_comma CALLER_WHITELIST)).

Definition whitelist_of (CALLER_WHITELIST : string) : gset string :=
  list_to_set (whitelist_entries CALLER_WHITELIST).

(** A value in a template literal: [undefined] is written out. *)
Definition interpolate (v : option string) : string :=
  match v with Some s => s | None => "undefined" end.

Definition reject_markup : string :=
  String.concat (String "034"%char EmptyString)
    ["
      <Response>
        <Say>Sorry, this number is not authorized.</Say>
        <Reject reason=";
     "rejected";
     "/>
      </Response>
    "].

Definition stream_markup (wsUrl : string) : string :=
  String.concat (String "034"%char EmptyString)
    ["
    <Response>
      <Connect>
        <Stream url=";
     wsUrl;
     "></Stream>
      </Connect>
      <Pause length=";
     "60";
     "/>
    </Response>
  "].

(** The handler of [POST /twilio/voice]: the body it sends, of type
    text/xml. [from] is [req.body.From] and [host] is [req.headers.host]. *)
Definition voice (whitelist : gset string) (from host : option string)
    : string :=
  let has_from :=
    match from with
    | Some f => bool_decide (f ∈ whitelist)
    | None => false
    end in
  if negb (Nat.eqb (size whitelist) 0) && negb has_from then reject_markup
  else stream_markup ("wss://" +:+ interpolate host +:+ "/twilio/stream").

Definition starts_slash (s : string) : bool :=
  match s with
  | String a _ => Ascii.eqb a "/"%char
  | EmptyString => false
  end.

Definition double_slash (s : string) : bool :=
  match s with
  | String a s' => Ascii.eqb a "/"%char && starts_slash s'
  | EmptyString => false
  end.

(** [url.replace(/([^:]\/)\/+/g, "$1")]: reading from the left, a code
    unit other than a colon that is followed by two slashes or more is
    kept with one slash, and the slashes after it are dropped; the search
    goes on behind them. [skipping] tells that such slashes are being
    dropped. *)
Fixpoint collapse (skipping : bool) (s : string) : string :=
  match s with
  | EmptyString => EmptyString
  | String c rest =>
      if skipping && Ascii.eqb c "/"%char then collapse true rest
      else if double_slash rest && negb (Ascii.eqb c ":"%char) then
        String c (String "/"%char (collapse true rest))
      else String c (collapse false rest)
  end.

(** [n] slashes. *)
Fixpoint slashes (n : nat) : string :=
  match n with
  | 0 => EmptyString
  | S n' => String "/"%char (slashes n')
  end.

(** The URL of the chat request for a base URL. *)
Definition chat_url (OPENAI_BASE_URL : string) : string :=
  collapse false (OPENAI_BASE_URL +:+ "/chat/completions").

(** No code unit of [s] is a comma. *)
Fixpoint comma_free (s : string) : bool :=
  match s with
  | EmptyString => true
  | String c s' => negb (Ascii.eqb c ","%char) && comma_free s'
  end.

(** [s] has no white space at its start and none at its end. *)
Definition trimmed (s : string) : Prop := trimStart s = s ∧ trimEnd s = s.

End Config.

(** ** What holds in every state the relay reaches *)

Module Invariants.

Import Relay.

(** A chat request starts with the preamble and ends with a user message
    that is not empty. *)
Definition request_ok (c : call) : Prop :=
  match c with
  | Chat _ messages =>
      head messages = Some preamble ∧
      ∃ text, truthy text = true ∧
              last messages = Some (mk_message "user" text)
  | _ => True
  end.

Definition requests_ok (s : state) : Prop := Forall request_ok (calls s).

(** The history array of a connection is named by the connection, in the
    map and in the invocations that hold it. *)
Definition refs_ok (s : state) : Prop :=
  (∀ w h, conversationHistory s !! w = Some h → h = w) ∧
  (∀ w h, AwaitChat w h ∈ pending s → h = w).

(** No buffer holds 60 frames. *)
Definition buffers_bounded (s : state) : Prop :=
  ∀ ws, length (buffered s ws) < 60.

(** What the maps hold for one connection, and its history array. *)
Definition session (s : state) (ws : conn) :=
  (audioChunks s !! ws, streamIds s !! ws, speakingUntil s !! ws,
   conversationHistory s !! ws, arrays s !! ws).

(** The connection whose message handler a suspended invocation is. *)
Definition owner (t : task) : conn :=
  match t with
  | GreetDelay w _ | GreetTTS w _ | AwaitSTT w | AwaitChat w _ | AwaitTTS w => w
  end.

(** The connection a step belongs to. *)
Definition label_conn (s : state) (l : label) : option conn :=
  match l with
  | Connection w | Incoming w _ _ _ => Some w
  | Resume i _ _ => owner <$> pending s !! i
  end.

(** A second connection stops while the first waits for its transcript. *)
Definition other_stops : label := Incoming 1 EvStop 5000 true.

(** The transcript of the first utterance arrives. *)
Definition transcript_arrives : label :=
  Resume 0 (Transcribed (Response true (Some "turn the lights on"))) 5000.

End Invariants.

(** ** What holds in every state the relay without memory reaches *)

Module BasicInvariants.

Import Relay.

(** A chat request carries the system message and one user message that
    is not empty, and nothing of earlier turns. *)
Definition request_ok (c : call) : Prop :=
  match c with
  | Chat _ messages =>
      ∃ text, truthy text = true ∧
              messages = [Basic.system_message; mk_message "user" text]
  | _ => True
  end.

Definition requests_ok (s : Basic.state) : Prop :=
  Forall request_ok (Basic.calls s).

Definition buffers_bounded (s : Basic.state) : Prop :=
  ∀ ws, length (Basic.buffered s ws) < 60.

(** Sixty frames arrive and their transcript comes back. *)
Definition one_turn : list Basic.label :=
  Basic.feed 0 true (replicate 60 "AAAA")
  ++ [Basic.Resume 0 (Transcribed (Response true (Some "hello")))].

End BasicInvariants.

(** ** What a request comes back with *)

Module Http.

(** The answer to a [fetch]: the request fails, or a response arrives with
    its [ok] flag. [json] is what [resp.json()] gives, reduced to the part
    of the body the program reads; it is [None] when the body is not JSON
    and [resp.json()] throws. *)
Inductive answer (A : Type) := NetworkError | Answer (ok : bool) (json : option A).
Arguments NetworkError {A}.
Arguments Answer {A} ok json.

(** [await fetch(...)] followed by [await resp.json()], as [chatReply] and
    [whisperSTT] do them: the body is read before [resp.ok] is looked at,
    so a body that is not JSON throws whatever the status. *)
Definition read {A} (a : answer A) : response A :=
  match a with
  | NetworkError => Rejected
  | Answer _ None => Rejected
  | Answer ok (Some body) => Response ok body
  end.

End Http.

(** ** A call whose greeting is slow *)

Module Scenarios.

Import Relay.



End Scenarios.

(** * Properties *)

Import Relay.

(** ** Array methods *)

Section Arrays.
Context {A : Type}.
Implicit Types a items : list A.

Lemma splice_spec a (start dc : nat) items :
  start ≤ length a → start + dc ≤ length a →
  splice a start (Z.of_nat dc) items
    = take start a ++ items ++ drop (start + dc) a.
Proof.
  intros Hs Hd. unfold splice.
  replace (Nat.min start (length a)) with start by lia.
  replace (Z.to_nat _) with dc by lia. reflexivity.
Qed.

Lemma slice_spec a (k : nat) :
  k ≤ length a → slice a (Z.of_nat k) = drop k a.
Proof.
  intros Hk. unfold slice.
  destruct (Z.ltb_spec (Z.of_nat k) 0); [lia|].
  f_equal. lia.
Qed.

End Arrays.

(** ** The history store *)

Lemma shift_oldest_short history :
  length history ≤ 21 → shift_oldest history = history.
Proof.
  intros H. funelim (shift_oldest history); [lia | reflexivity].
Qed.

Lemma shift_oldest_length history :
  length (shift_oldest history) = Nat.min (length history) 21.
Proof.
  funelim (shift_oldest history); [|lia].
  rewrite H. unfold splice. rewrite !length_app, length_take, length_drop.
  cbn [length]. lia.
Qed.

Lemma shift_oldest_head p history :
  head (shift_oldest (p :: history)) = Some p.
Proof.
  remember (p :: history) as h eqn:Hh. revert p history Hh.
  funelim (shift_oldest h); intros p rest ->; [|reflexivity].
  eapply H. reflexivity.
Qed.

Lemma prune_short history :
  length history ≤ 11 → prune history = history.
Proof. intros H. unfold prune. case_decide; [lia | reflexivity]. Qed.

(** What the prune block leaves when it fires: the first entry, then the
    last ten entries, then the last ten entries again. The [splice] call
    deletes all but the first and the last ten and inserts the last ten at
    index 1, in front of the ten it has kept. *)
Lemma prune_long history :
  11 < length history →
  prune history =
    take 1 history ++ drop (length history - 10) history
      ++ drop (length history - 10) history.
Proof.
  intros H. unfold prune. case_decide; [|lia]. cbn zeta.
  replace (Z.of_nat (length history) - 10)%Z
    with (Z.of_nat (length history - 10)) by lia.
  replace (Z.of_nat (length history) - 1 - 10)%Z
    with (Z.of_nat (length history - 11)) by lia.
  rewrite slice_spec, splice_spec by lia.
  replace (1 + (length history - 11)) with (length history - 10) by lia.
  apply shift_oldest_short.
  rewrite !length_app, length_take, !length_drop. lia.
Qed.

Lemma prune_length history :
  11 < length history → length (prune history) = 21.
Proof.
  intros H. rewrite prune_long by done.
  rewrite !length_app, length_take, !length_drop. lia.
Qed.

Lemma prune_bounded history : length (prune history) ≤ 21.
Proof.
  destruct (decide (11 < length history)).
  - rewrite prune_length; done.
  - rewrite prune_short; lia.
Qed.

Lemma prune_head p history : head (prune (p :: history)) = Some p.
Proof.
  destruct (decide (11 < length (p :: history))).
  - rewrite prune_long by done. reflexivity.
  - rewrite prune_short by lia. reflexivity.
Qed.

Lemma apply_op_head p history op :
  ∃ history', apply_op (p :: history) op = p :: history'.
Proof.
  destruct op as [m|]; cbn.
  - eexists. reflexivity.
  - pose proof (prune_head p history) as H.
    destruct (prune (p :: history)) as [|q t]; [done|].
    injection H as ->. eauto.
Qed.

Lemma apply_ops_head ops : ∀ p history,
  ∃ history', apply_ops ops (p :: history) = p :: history'.
Proof.
  induction ops as [|op ops IH]; intros p history; cbn.
  - eauto.
  - destruct (apply_op_head p history op) as [h' ->]. apply IH.
Qed.

(** C2. Whatever appends and prunes are applied to a history that starts
    with the preamble [p], its entry at index 0 is still [p]; and right
    after a prune the history has at most 21 entries, the preamble and 20
    more (21 is the bound of the loop that closes the prune block). *)
Theorem history_preamble_fixed_and_bounded (p : message)
    (rest : list message) (ops : list store_op) :
  head (apply_ops ops (p :: rest)) = Some p ∧
  length (apply_ops (ops ++ [Prune]) (p :: rest)) ≤ 1 + 20.
Proof.
  split.
  - destruct (apply_ops_head ops p rest) as [h' ->]. reflexivity.
  - unfold apply_ops. rewrite fold_left_app. cbn. apply prune_bounded.
Qed.

(** The prune block does not bring a history down to the preamble and ten
    entries: from 12 entries on it leaves exactly 21. *)
Lemma prune_leaves_21 (p : message) (rest : list message) :
  11 ≤ length rest → length (prune (p :: rest)) = 21.
Proof. intros H. apply prune_length. cbn. lia. Qed.

(** C3, at the sixth exchange of a call. The array holds the preamble and
    five exchanges when [chatReply] is called; the call succeeds. The
    array it leaves has 21 entries: the last ten messages are there twice,
    so the sequence is not the inserted one with its oldest entries
    removed. *)
Theorem sixth_exchange_duplicates_messages (p q1 a1 q2 a2 q3 a3 q4 a4 q5 a5
    : message) :
  (chatReply "six" (Response true (Some "ok"))
     [p; q1; a1; q2; a2; q3; a3; q4; a4; q5; a5]).1
  = [p; q2; a2; q3; a3; q4; a4; q5; a5;
       mk_message "user" "six"; mk_message "assistant" "ok";
     q2; a2; q3; a3; q4; a4; q5; a5;
       mk_message "user" "six"; mk_message "assistant" "ok"].
Proof.
  unfold chatReply, chatReply_request, chatReply_response, push.
  cbn [fst or_else truthy app]. rewrite prune_long by (cbn; lia).
  reflexivity.
Qed.

(** When the chat request is answered by an error status and a body that
    is JSON, [chatReply] returns the fixed sentence instead of throwing,
    and leaves the array with the user message appended and nothing else:
    no assistant message, no pruning, no removal of the user message. *)
Theorem chatReply_error_keeps_user_message (text : string)
    (body : option string) (history : list message) :
  chatReply text (Response false body) history
    = (history ++ [mk_message "user" text],
       Returns "Sorry, I had a brain fart.").
Proof. reflexivity. Qed.

(** C10, as the code has it. For every answer with an error status,
    [chatReply] leaves the array with the user message appended and
    nothing else: no assistant message, no pruning, no removal of the user
    message. When the body is JSON it returns the fixed sentence instead
    of throwing; when the body is not JSON, [resp.json()] throws before
    the status is looked at, and [chatReply] throws. *)
Theorem chatReply_error_status_leaves_user_message (text : string)
    (json : option (option string)) (history : list message) :
  chatReply text (Http.read (Http.Answer false json)) history
    = (history ++ [mk_message "user" text],
       match json with
       | Some _ => Returns "Sorry, I had a brain fart."
       | None => Throws
       end).
Proof. destruct json; reflexivity. Qed.

(** C10 fails on the code: the chat request is answered by an error status
    and a body that is not JSON, as a gateway error page is; [chatReply]
    does not return the fixed sentence, it throws, with the user message
    left in the array. *)
Lemma chatReply_throws_on_unreadable_error_body :
  chatReply "hello" (Http.read (Http.Answer false None)) [Relay.preamble]
    = ([Relay.preamble; mk_message "user" "hello"], Throws) ∧
  (chatReply "hello" (Http.read (Http.Answer false None)) [Relay.preamble]).2
    ≠ Returns "Sorry, I had a brain fart.".
Proof. split; [reflexivity | discriminate]. Qed.

(** ** The controller *)

Lemma run_app (ls1 ls2 : list label) : ∀ s,
  run s (ls1 ++ ls2) = run s ls1 ≫= λ s', run s' ls2.
Proof.
  induction ls1 as [|l ls1 IH]; intros s; cbn; [reflexivity|].
  destruct (step s l) as [s1|]; cbn; [apply IH | reflexivity].
Qed.

Lemma muted_ext (s s' : state) (ws : conn) (now : Z) :
  speakingUntil s' = speakingUntil s → muted s' ws now = muted s ws now.
Proof. intros H. unfold muted. rewrite H. reflexivity. Qed.

Lemma in_flight_suspend (s : state) (t : task) (ws : conn) :
  in_flight (suspend t s) ws
    = in_flight s ws + (if pipeline_of ws t then 1 else 0).
Proof.
  unfold in_flight, suspend. cbn. rewrite List.filter_app, length_app. cbn.
  destruct (pipeline_of ws t); reflexivity.
Qed.

Lemma buffered_set_audioChunks (s : state) (ws : conn) (b : list Buffer) :
  buffered (set_audioChunks (<[ws := b]> (audioChunks s)) s) ws = b.
Proof. unfold buffered. cbn. rewrite lookup_insert_eq. reflexivity. Qed.

(** An accepted frame that leaves the count under 60 is appended. *)
Lemma on_media_append (ws : conn) (payload : string) (now : Z)
    (wav_ok : bool) (s : state) :
  muted s ws now = false →
  length (buffered s ws) + 1 < 60 →
  on_media ws payload now wav_ok s =
    set_audioChunks
      (<[ws := buffered s ws ++ [Buffer_from payload]]> (audioChunks s)) s.
Proof.
  intros Hm Hlen. unfold on_media. rewrite Hm. fold (buffered s ws).
  unfold push. rewrite length_app. cbn [length].
  case_decide; [lia | reflexivity].
Qed.

(** An accepted frame that brings the count to 60 empties the buffer and
    hands its frames, the new one last, to the transcoder. *)
Lemma on_media_flush (ws : conn) (payload : string) (now : Z)
    (wav_ok : bool) (s : state) :
  muted s ws now = false →
  60 ≤ length (buffered s ws) + 1 →
  on_media ws payload now wav_ok s =
    let s2 :=
      log (ToWav ws (buffered s ws ++ [Buffer_from payload]))
        (set_audioChunks (<[ws := []]> (audioChunks s)) s) in
    if wav_ok then suspend (AwaitSTT ws) (log (Whisper ws) s2) else s2.
Proof.
  intros Hm Hlen. unfold on_media. rewrite Hm. fold (buffered s ws).
  unfold push. rewrite length_app. cbn [length].
  case_decide; [reflexivity | lia].
Qed.

(** Frames that arrive while the count stays under 60 pile up in arrival
    order, and nothing else happens. *)
Lemma feed_below (ws : conn) (wav_ok : bool) (ps : list (string * Z)) :
  ∀ s, Forall (λ p, muted s ws p.2 = false) ps →
    length (buffered s ws) + length ps < 60 →
    ∃ s', run s (feed ws wav_ok ps) = Some s' ∧
          buffered s' ws = buffered s ws ++ map (λ p, Buffer_from p.1) ps ∧
          calls s' = calls s ∧ pending s' = pending s ∧ sent s' = sent s ∧
          speakingUntil s' = speakingUntil s.
Proof.
  induction ps as [|[payload now] ps IH]; intros s Hm Hlen.
  - exists s. cbn. rewrite app_nil_r. done.
  - apply Forall_cons in Hm as [Hm1 Hm]. cbn in Hm1, Hlen.
    cbn [feed map run step mbind option_bind on_message fst snd].
    rewrite on_media_append by (done || lia).
    edestruct IH as (s' & Hrun & Hb & Hc & Hp & Hs & Hu); cycle 2.
    + exists s'. split; [exact Hrun|].
      rewrite buffered_set_audioChunks in Hb. rewrite Hb, Hc, Hp, Hs, Hu.
      rewrite <- app_assoc. done.
    + exact Hm.
    + rewrite buffered_set_audioChunks, length_app. cbn. lia.
Qed.

(** Sixty frames arriving on an empty buffer: the first 59 pile up, the
    60th flushes. *)
Lemma feed_flush (s : state) (ws : conn) (wav_ok : bool)
    (ps : list (string * Z)) :
  buffered s ws = [] →
  length ps = 60 →
  Forall (λ p, muted s ws p.2 = false) ps →
  ∃ s', run s (feed ws wav_ok ps) = Some s' ∧
        audioChunks s' !! ws = Some [] ∧
        calls s' =
          calls s ++ ToWav ws (map (λ p, Buffer_from p.1) ps)
                  :: (if wav_ok then [Whisper ws] else []) ∧
        pending s' = pending s ++ (if wav_ok then [AwaitSTT ws] else []) ∧
        ∀ k, k < 60 →
          ∃ s'', run s (feed ws wav_ok (take k ps)) = Some s'' ∧
                 buffered s'' ws = map (λ p, Buffer_from p.1) (take k ps) ∧
                 calls s'' = calls s ∧ pending s'' = pending s.
Proof.
  intros Hempty Hlen Hm.
  assert (Hbelow : ∀ k, k < 60 →
    ∃ s'', run s (feed ws wav_ok (take k ps)) = Some s'' ∧
           buffered s'' ws = map (λ p, Buffer_from p.1) (take k ps) ∧
           calls s'' = calls s ∧ pending s'' = pending s ∧
           speakingUntil s'' = speakingUntil s).
  { intros k Hk.
    destruct (feed_below ws wav_ok (take k ps) s)
      as (s'' & Hrun & Hb & Hc & Hp & _ & Hu).
    - apply Forall_take, Hm.
    - rewrite Hempty, length_take. cbn. lia.
    - exists s''. rewrite Hempty in Hb. done. }
  destruct ps as [|p0 ps0] using rev_ind; [discriminate|]. clear IHps0.
  rewrite length_app in Hlen. cbn in Hlen.
  destruct (Hbelow 59) as (s1 & Hrun & Hb & Hc & Hp & Hu); [lia|].
  rewrite take_app_length' in Hrun, Hb by lia.
  rewrite Forall_app, Forall_singleton in Hm. destruct Hm as [_ Hm0].
  unfold feed. rewrite map_app, run_app. fold (feed ws wav_ok ps0).
  rewrite Hrun. cbn [mbind option_bind map run step on_message].
  rewrite on_media_flush; cycle 1.
  { rewrite (muted_ext s s1) by done. exact Hm0. }
  { rewrite Hb, length_map. lia. }
  eexists. split; [reflexivity|]. split; [|split; [|split]].
  - destruct wav_ok; cbn; apply lookup_insert_eq.
  - rewrite Hb, map_app.
    destruct wav_ok; cbn; rewrite Hc, <- ?app_assoc; reflexivity.
  - destruct wav_ok; cbn; rewrite Hp, ?app_nil_r; reflexivity.
  - intros k Hk. destruct (Hbelow k Hk) as (s'' & ? & ? & ? & ? & _). eauto.
Qed.

(** C1, as the code has it. There is no test of a run in flight: whenever
    a connection is not muted, the frame that brings its count to 60
    starts a run, and the number of its runs in flight grows by one,
    whatever that number was. *)
Theorem threshold_starts_run_without_guard (s : state) (ws : conn)
    (payload : string) (now : Z) :
  muted s ws now = false →
  60 ≤ length (buffered s ws) + 1 →
  in_flight (on_message ws (EvMedia payload) now true s) ws
    = S (in_flight s ws).
Proof.
  intros Hm Hlen. cbn [on_message]. rewrite on_media_flush by done.
  cbn zeta. rewrite in_flight_suspend. cbn [pipeline_of].
  rewrite bool_decide_true by done. unfold in_flight. cbn. lia.
Qed.

Lemma threshold_starts_run_without_guard_witness :
  muted (after first_utterance) 0 5780 = false ∧
  60 ≤ length (buffered (after (first_utterance ++
                                  feed 0 true (frames 59 4600))) 0) + 1 ∧
  in_flight (after first_utterance) 0 = 1 ∧
  in_flight
    (on_message 0 (EvMedia "AAAA") 5780 true
       (after (first_utterance ++ feed 0 true (frames 59 4600)))) 0 = 2.
Proof.
  split; [vm_compute; reflexivity|]. split; [vm_compute; lia|].
  split; [vm_compute; reflexivity|].
  apply (threshold_starts_run_without_guard
           (after (first_utterance ++ feed 0 true (frames 59 4600)))
           0 "AAAA" 5780).
  - vm_compute. reflexivity.
  - vm_compute. lia.
Defined.

(** C1 fails on the code: the caller speaks for 120 frames after the
    greeting, the transcript of the first 60 has not arrived when the
    second 60 are complete, and two runs of the connection are in flight. *)
Lemma two_runs_in_flight :
  ∃ s, run initial overlapping_utterances = Some s ∧
       pending s = [AwaitSTT 0; AwaitSTT 0] ∧
       in_flight s 0 = 2 ∧ ¬ in_flight s 0 ≤ 1.
Proof.
  eexists. split; [vm_compute; reflexivity|].
  split; [reflexivity|]. split; [reflexivity|]. vm_compute. lia.
Qed.

(** C6. A [media] message that arrives while the connection's entry in
    [speakingUntil] is [Infinity] or a time not yet reached changes
    nothing: the buffer keeps its frames and no run starts. *)
Theorem muted_media_is_dropped (s : state) (ws : conn) (payload : string)
    (now : Z) (wav_ok : bool) (until : number) :
  speakingUntil s !! ws = Some until →
  (until = Infinity ∨ ∃ t, until = Finite t ∧ (now < t)%Z) →
  step s (Incoming ws (EvMedia payload) now wav_ok) = Some s ∧
  length (buffered (on_message ws (EvMedia payload) now wav_ok s) ws)
    = length (buffered s ws) ∧
  in_flight (on_message ws (EvMedia payload) now wav_ok s) ws
    = in_flight s ws.
Proof.
  intros Hget Hun.
  assert (Hsame : on_message ws (EvMedia payload) now wav_ok s = s).
  { cbn. unfold on_media, muted. rewrite Hget.
    destruct Hun as [-> | (t & -> & Hlt)]; [reflexivity|].
    rewrite bool_decide_true by done. reflexivity. }
  cbn [step]. rewrite Hsame. done.
Qed.

Lemma muted_media_is_dropped_witness :
  speakingUntil (after greeted) !! 0 = Some (Finite 3400) ∧
  (2000 < 3400)%Z ∧
  step (after greeted) (Incoming 0 (EvMedia "AAAA") 2000 true)
    = Some (after greeted).
Proof.
  split; [vm_compute; reflexivity|]. split; [lia|].
  apply (muted_media_is_dropped (after greeted) 0 "AAAA" 2000 true
           (Finite 3400)).
  - vm_compute. reflexivity.
  - right. exists 3400%Z. split; [reflexivity | lia].
Defined.

(** While a reply is being played the entry is [Infinity], and frames are
    dropped whatever the time. *)
Lemma muted_while_reply_plays (now : Z) :
  speakingUntil (after chat_failure) !! 0 = Some Infinity ∧
  on_message 0 (EvMedia "AAAA") now true (after chat_failure)
    = after chat_failure.
Proof. split; vm_compute; reflexivity. Qed.

(** C7. When the transcript is empty the run ends there: no chat request
    and no synthesis request is made, nothing is sent, the mute entry and
    the history are as they were, and the connection takes frames as
    before. *)
Theorem empty_transcript_ends_turn (s : state) (i : nat) (ws : conn)
    (r : response (option string)) (now : Z) :
  pending s !! i = Some (AwaitSTT ws) →
  whisperSTT r = Returns "" →
  ∃ s', step s (Resume i (Transcribed r) now) = Some s' ∧
        calls s' = calls s ∧ sent s' = sent s ∧
        speakingUntil s' = speakingUntil s ∧
        audioChunks s' = audioChunks s ∧ arrays s' = arrays s ∧
        pending s' = delete i (pending s).
Proof.
  intros Hi Hr. eexists. cbn. rewrite Hi. cbn. rewrite Hr. cbn.
  split; [reflexivity|]. repeat split.
Qed.

Lemma empty_transcript_ends_turn_witness :
  pending (after first_utterance) !! 0 = Some (AwaitSTT 0) ∧
  whisperSTT (Response true (Some "")) = Returns "" ∧
  ∃ s', step (after first_utterance)
          (Resume 0 (Transcribed (Response true (Some ""))) 5000) = Some s' ∧
        calls s' = calls (after first_utterance) ∧
        sent s' = sent (after first_utterance) ∧
        speakingUntil s' = speakingUntil (after first_utterance) ∧
        audioChunks s' = audioChunks (after first_utterance) ∧
        arrays s' = arrays (after first_utterance) ∧
        pending s' = delete 0 (pending (after first_utterance)).
Proof.
  split; [vm_compute; reflexivity|]. split; [reflexivity|].
  apply (empty_transcript_ends_turn (after first_utterance) 0 0
           (Response true (Some "")) 5000); vm_compute; reflexivity.
Defined.

(** A transcription answered by an error status without text is an empty
    transcript too. *)
Lemma whisper_error_is_empty_transcript :
  whisperSTT (Response false None) = Returns "".
Proof. reflexivity. Qed.

(** Between two flushes the buffer of a connection changes by appends
    only, unless its greeting ends or a [stop] arrives for it: every other
    step leaves it as it is. *)
Lemma other_steps_keep_buffer (s s' : state) (ws : conn) (l : label) :
  step s l = Some s' →
  touches_buffer s ws l = false →
  audioChunks s' !! ws = audioChunks s !! ws.
Proof.
  intros Hstep Ht. apply orb_false_elim in Ht as [Hm Hr]. revert Hstep.
  destruct l as [w | w ev now wav_ok | i o now]; cbn in *.
  - unfold on_connection. destruct (arrays s !! w); [done|].
    intros [= <-]. reflexivity.
  - intros [= <-]. destruct ev as [sid | payload | | | name]; cbn.
    + unfold on_start. destruct sid as [sid|]; [destruct (truthy sid)|];
        reflexivity.
    + apply bool_decide_eq_false in Hm. unfold on_media.
      destruct (muted s w now); [reflexivity|].
      case_decide; [destruct wav_ok|]; cbn; by rewrite lookup_insert_ne.
    + reflexivity.
    + apply bool_decide_eq_false in Hr. by rewrite lookup_delete_ne.
    + reflexivity.
  - destruct (pending s !! i) as [t|]; [|done]. cbn.
    destruct t as [w sid | w sid | w | w h | w], o as [| r | r | r mulaw tone];
      cbn; try done.
    + intros [= <-]. reflexivity.
    + intros [= <-]. apply bool_decide_eq_false in Hr.
      destruct (synthesize r mulaw); [destruct tone|]; cbn;
        by rewrite lookup_insert_ne.
    + destruct (whisperSTT r) as [|transcript]; [by intros [= <-]|].
      destruct (truthy transcript); [|by intros [= <-]].
      destruct (conversationHistory s !! w) as [h|]; [|by intros [= <-]].
      cbn. destruct (arrays s !! h); cbn; [by intros [= <-] | done].
    + destruct (arrays s !! h) as [history|]; [|done]. cbn.
      destruct (chatReply_response r history) as [history1 [|v]];
        by intros [= <-].
    + destruct (synthesize r mulaw); by intros [= <-].
Qed.

(** Steps other than the [media] messages of a connection hand none of
    its frames to the transcoder. *)
Lemma handed_log (s : state) (ws : conn) (c : call) :
  handed (log c s) ws = handed s ws ++ option_list (handed_by ws c).
Proof.
  unfold handed. cbn. rewrite omap_app. cbn.
  destruct (handed_by ws c); reflexivity.
Qed.








(** C9, as the code has it. On a connection that has received no [start]
    (no buffer, no mute entry) a [media] message is not ignored: the
    buffer is created with the frame in it, and sixty such frames start a
    run. *)
Theorem media_before_start_is_buffered (s : state) (ws : conn)
    (wav_ok : bool) (ps : list (string * Z)) :
  audioChunks s !! ws = None →
  speakingUntil s !! ws = None →
  length ps = 60 →
  (∀ payload now,
     audioChunks (on_message ws (EvMedia payload) now wav_ok s) !! ws
       = Some [Buffer_from payload]) ∧
  ∃ s', run s (feed ws wav_ok ps) = Some s' ∧
        calls s' =
          calls s ++ ToWav ws (map (λ p, Buffer_from p.1) ps)
                  :: (if wav_ok then [Whisper ws] else []) ∧
        pending s' = pending s ++ (if wav_ok then [AwaitSTT ws] else []).
Proof.
  intros Hbuf Hmute Hlen.
  assert (Hm : ∀ now, muted s ws now = false).
  { intros now. unfold muted. rewrite Hmute. reflexivity. }
  assert (Hempty : buffered s ws = []).
  { unfold buffered. rewrite Hbuf. reflexivity. }
  split.
  - intros payload now. cbn [on_message].
    rewrite on_media_append by (rewrite ?Hempty; cbn; done || lia).
    rewrite Hempty. cbn. apply lookup_insert_eq.
  - destruct (feed_flush s ws wav_ok ps Hempty Hlen)
      as (s' & Hrun & _ & Hc & Hp & _).
    { apply Forall_forall. intros p _. apply Hm. }
    exists s'. done.
Qed.

Lemma media_before_start_is_buffered_witness :
  audioChunks (after [Connection 0]) !! 0 = None ∧
  speakingUntil (after [Connection 0]) !! 0 = None ∧
  length (frames 60 0) = 60 ∧
  (∀ payload now,
     audioChunks
       (on_message 0 (EvMedia payload) now true (after [Connection 0])) !! 0
       = Some [Buffer_from payload]) ∧
  ∃ s', run (after [Connection 0]) (feed 0 true (frames 60 0)) = Some s' ∧
        calls s' =
          calls (after [Connection 0])
            ++ ToWav 0 (map (λ p, Buffer_from p.1) (frames 60 0))
            :: [Whisper 0] ∧
        pending s' = pending (after [Connection 0]) ++ [AwaitSTT 0].
Proof.
  split; [vm_compute; reflexivity|]. split; [vm_compute; reflexivity|].
  split; [reflexivity|].
  apply (media_before_start_is_buffered (after [Connection 0]) 0 true
           (frames 60 0)); vm_compute; reflexivity.
Defined.

(** C9 fails on the code: a connection is opened, no [start] arrives, and
    a [media] message is buffered; after sixty of them a run is in
    flight. *)
Lemma media_before_start_not_ignored :
  buffered (after (media_before_start 1)) 0 = [Buffer_from "AAAA"] ∧
  buffered (after (media_before_start 1)) 0
    ≠ buffered (after [Connection 0]) 0 ∧
  pending (after (media_before_start 60)) = [AwaitSTT 0] ∧
  in_flight (after (media_before_start 60)) 0 = 1.
Proof.
  split; [vm_compute; reflexivity|].
  split; [vm_compute; discriminate|].
  split; vm_compute; reflexivity.
Qed.

(** C4, as the code has it. When the chat request is answered by an error
    status the turn goes on: [chatReply] returns the fixed sentence, the
    synthesis request is made with it, and the run waits for the audio.
    Only a rejected request, or a body that cannot be parsed, ends the
    turn with no synthesis request and nothing sent. *)
Theorem chat_error_reply_is_synthesized (s : state) (ws : conn) (h : ref)
    (history : list message) (now : Z) :
  arrays s !! h = Some history →
  (∀ body,
     ∃ s', continue (AwaitChat ws h) (Replied (Response false body)) now s
             = Some s' ∧
           calls s' = calls s ++ [Eleven ws "Sorry, I had a brain fart."] ∧
           pending s' = pending s ++ [AwaitTTS ws] ∧
           sent s' = sent s) ∧
  (∃ s', continue (AwaitChat ws h) (Replied Rejected) now s = Some s' ∧
         calls s' = calls s ∧ pending s' = pending s ∧ sent s' = sent s).
Proof.
  intros Hh. split.
  - intros body. eexists. cbn. rewrite Hh. cbn.
    split; [reflexivity|]. done.
  - eexists. cbn. rewrite Hh. cbn. split; [reflexivity|]. done.
Qed.

Lemma chat_error_reply_is_synthesized_witness :
  arrays (after first_utterance) !! 0 = Some [preamble] ∧
  ∃ s', continue (AwaitChat 0 0) (Replied (Response false None)) 5600
          (after first_utterance) = Some s' ∧
        calls s' = calls (after first_utterance)
                     ++ [Eleven 0 "Sorry, I had a brain fart."] ∧
        pending s' = pending (after first_utterance) ++ [AwaitTTS 0] ∧
        sent s' = sent (after first_utterance).
Proof.
  split; [vm_compute; reflexivity|].
  apply (chat_error_reply_is_synthesized (after first_utterance) 0 0
           [preamble] 5600).
  vm_compute. reflexivity.
Defined.

(** The end of a run whose synthesis and transcoding succeed: the audio
    and the mark are sent and the connection is muted until the mark comes
    back. *)
Lemma reply_is_sent (s : state) (ws : conn) (audio : string)
    (tone : option string) (now : Z) :
  continue (AwaitTTS ws) (Synthesized (Response true ()) (Some audio) tone)
    now s
  = Some (set_speakingUntil (<[ws := Infinity]> (speakingUntil s))
            (send ws (MarkOut (streamIds s !! ws) "reply_complete")
               (send ws (MediaOut (streamIds s !! ws) audio) s))).
Proof. reflexivity. Qed.

(** C4 fails on the code: the chat request of a turn is answered by an
    error status; a synthesis request is made for the fixed sentence and
    its audio is sent to the transport, after the greeting. *)
Lemma chat_failure_is_spoken :
  last (calls (after chat_failure))
    = Some (Eleven 0 "Sorry, I had a brain fart.") ∧
  sent (after chat_failure)
    = [(0, MediaOut (Some "MZ1") "GREETING");
       (0, MediaOut (Some "MZ1") "REPLY");
       (0, MarkOut (Some "MZ1") "reply_complete")] ∧
  arrays (after chat_failure) !! 0
    = Some [preamble; mk_message "user" "turn the lights on"].
Proof. repeat split; vm_compute; reflexivity. Qed.

(** C5, on the code. When the synthesis request of a run is answered by an
    error status, no mp3 file is written, the conversion of the missing
    file throws, and the run ends in its [catch]: the state is what it was
    when the run resumed. Nothing is sent, no tone either, and the
    connection is not muted. *)
Theorem pipeline_synthesis_error_sends_nothing (s : state) (ws : conn)
    (mulaw tone : option string) (now : Z) :
  continue (AwaitTTS ws) (Synthesized (Response false ()) mulaw tone) now s
    = Some s.
Proof. reflexivity. Qed.

(** The same turn from the start of the call: the only message sent is
    the greeting. *)
Lemma synthesis_failure_is_silent :
  sent (after synthesis_failure) = [(0, MediaOut (Some "MZ1") "GREETING")] ∧
  last (calls (after synthesis_failure)) = Some (Eleven 0 "Sure thing.") ∧
  pending (after synthesis_failure) = [].
Proof. repeat split; vm_compute; reflexivity. Qed.

(** The greeting does what the pipeline does not: when the synthesis of
    the greeting fails and the tone can be made, the tone is sent. *)
Lemma greeting_synthesis_error_sends_tone (s : state) (ws : conn)
    (streamSid mulaw : option string) (toneAudio : string) (now : Z) :
  ∃ s', continue (GreetTTS ws streamSid)
          (Synthesized (Response false ()) mulaw (Some toneAudio)) now s
          = Some s' ∧
        sent s' = sent s ++ [(ws, MediaOut streamSid toneAudio)].
Proof. eexists. split; reflexivity. Qed.

(** ** The history arrays of the machine *)

Lemma arrays_on_message (ws : conn) (ev : event) (now : Z) (wav_ok : bool)
    (s : state) :
  arrays (on_message ws ev now wav_ok s) = arrays s.
Proof.
  destruct ev as [sid | payload | | | name]; cbn; try reflexivity.
  - unfold on_start. destruct sid as [sid|]; [destruct (truthy sid)|];
      reflexivity.
  - unfold on_media. destruct (muted s ws now); [reflexivity|].
    case_decide; [destruct wav_ok|]; reflexivity.
Qed.

Lemma chatReply_response_head (r : response (option string)) (p : message)
    (history : list message) :
  head (chatReply_response r (p :: history)).1 = Some p.
Proof.
  destruct r as [|[] body]; cbn; try reflexivity. apply prune_head.
Qed.

Lemma histories_ok_insert (s s' : state) (h : ref) (history : list message) :
  histories_ok s → head history = Some preamble →
  arrays s' = <[h := history]> (arrays s) →
  histories_ok s'.
Proof.
  intros Hok Hhd Harr h' history'. rewrite Harr, lookup_insert. case_decide.
  - by intros [= <-].
  - apply Hok.
Qed.

Lemma step_histories_ok (s s' : state) (l : label) :
  histories_ok s → step s l = Some s' → histories_ok s'.
Proof.
  intros Hok. destruct l as [w | w ev now wav_ok | i o now]; cbn.
  - unfold on_connection. destruct (arrays s !! w); [done|].
    intros [= <-]. eapply histories_ok_insert; [exact Hok| |reflexivity]. reflexivity.
  - intros [= <-]. unfold histories_ok. rewrite arrays_on_message. exact Hok.
  - destruct (pending s !! i) as [t|]; [|done]. cbn.
    destruct t as [w sid | w sid | w | w h | w], o as [| r | r | r mulaw tone];
      cbn; try done.
    + by intros [= <-].
    + intros [= <-]. destruct (synthesize r mulaw); [destruct tone|]; exact Hok.
    + destruct (whisperSTT r) as [|transcript]; [by intros [= <-]|].
      destruct (truthy transcript); [|by intros [= <-]].
      destruct (conversationHistory s !! w) as [h|]; [|by intros [= <-]].
      cbn. destruct (arrays s !! h) as [history|] eqn:Hh; cbn; [|done].
      intros [= <-]. eapply histories_ok_insert; [exact Hok| |reflexivity].
      specialize (Hok h history Hh). by destruct history.
    + destruct (arrays s !! h) as [history|] eqn:Hh; [|done]. cbn.
      pose proof (Hok h history Hh) as Hhd.
      destruct history as [|p history]; [done|]. injection Hhd as ->.
      pose proof (chatReply_response_head r preamble history) as Hr.
      destruct (chatReply_response r (preamble :: history))
        as [history1 [|v]]; intros [= <-];
        (eapply histories_ok_insert; [exact Hok|exact Hr|reflexivity]).
    + destruct (synthesize r mulaw); by intros [= <-].
Qed.

Lemma run_histories_ok (ls : list label) : ∀ s s',
  histories_ok s → run s ls = Some s' → histories_ok s'.
Proof.
  induction ls as [|l ls IH]; intros s s' Hok; cbn.
  - by intros [= <-].
  - destruct (step s l) as [s1|] eqn:Hstep; [|done]. cbn.
    apply IH. by eapply step_histories_ok.
Qed.

(** Every history array of every state the machine reaches starts with
    the preamble. *)
Lemma history_starts_with_preamble (ls : list label) (s : state) (h : ref)
    (history : list message) :
  run initial ls = Some s → arrays s !! h = Some history →
  head history = Some preamble.
Proof.
  intros Hrun. eapply run_histories_ok; [|exact Hrun].
  intros h' history'. cbn. by rewrite lookup_empty.
Qed.

Lemma chat_error_keeps_array (s : state) (ws : conn) (h : ref)
    (history : list message) (body : option string) (now : Z) :
  arrays s !! h = Some history →
  ∃ s', continue (AwaitChat ws h) (Replied (Response false body)) now s
          = Some s' ∧
        arrays s' = arrays s.
Proof.
  intros Hh. eexists. cbn. rewrite Hh. cbn. split; [reflexivity|].
  cbn. by apply insert_id.
Qed.

(** ** The relay without memory and without marks *)

Lemma basic_run_app (ls1 ls2 : list Basic.label) : ∀ s,
  Basic.run s (ls1 ++ ls2) = Basic.run s ls1 ≫= λ s', Basic.run s' ls2.
Proof.
  induction ls1 as [|l ls1 IH]; intros s; cbn; [reflexivity|].
  destruct (Basic.step s l) as [s1|]; cbn; [apply IH | reflexivity].
Qed.

Lemma basic_on_media_append (ws : conn) (payload : string) (wav_ok : bool)
    (s : Basic.state) :
  length (Basic.buffered s ws) + 1 < 60 →
  Basic.on_media ws payload wav_ok s =
    Basic.set_audioChunks
      (<[ws := Basic.buffered s ws ++ [Buffer_from payload]]>
         (Basic.audioChunks s)) s.
Proof.
  intros Hlen. unfold Basic.on_media. fold (Basic.buffered s ws).
  unfold push. rewrite length_app. cbn [length].
  case_decide; [lia | reflexivity].
Qed.

Lemma basic_on_media_flush (ws : conn) (payload : string) (wav_ok : bool)
    (s : Basic.state) :
  60 ≤ length (Basic.buffered s ws) + 1 →
  Basic.on_media ws payload wav_ok s =
    let s2 :=
      Basic.log (ToWav ws (Basic.buffered s ws ++ [Buffer_from payload]))
        (Basic.set_audioChunks (<[ws := []]> (Basic.audioChunks s)) s) in
    if wav_ok then Basic.suspend (Basic.AwaitSTT ws) (Basic.log (Whisper ws) s2)
    else s2.
Proof.
  intros Hlen. unfold Basic.on_media. fold (Basic.buffered s ws).
  unfold push. rewrite length_app. cbn [length].
  case_decide; [reflexivity | lia].
Qed.

Lemma basic_feed_below (ws : conn) (wav_ok : bool) (ps : list string) :
  ∀ s, length (Basic.buffered s ws) + length ps < 60 →
    ∃ s', Basic.run s (Basic.feed ws wav_ok ps) = Some s' ∧
          Basic.buffered s' ws = Basic.buffered s ws ++ map Buffer_from ps ∧
          Basic.calls s' = Basic.calls s ∧
          Basic.pending s' = Basic.pending s ∧
          Basic.sent s' = Basic.sent s.
Proof.
  induction ps as [|payload ps IH]; intros s Hlen.
  - exists s. cbn. rewrite app_nil_r. done.
  - cbn in Hlen.
    cbn [Basic.feed map Basic.run Basic.step mbind option_bind
         Basic.on_message].
    rewrite basic_on_media_append by lia.
    edestruct IH as (s' & Hrun & Hb & Hc & Hp & Hs); cycle 1.
    + exists s'. split; [exact Hrun|].
      unfold Basic.buffered at 2 in Hb. cbn in Hb.
      rewrite lookup_insert_eq in Hb. cbn in Hb.
      rewrite Hb, Hc, Hp, Hs, <- app_assoc. done.
    + unfold Basic.buffered at 1. cbn. rewrite lookup_insert_eq. cbn.
      rewrite length_app. cbn. lia.
Qed.

(** C8 and C9 on [server.js], which has no mute test: sixty frames
    arriving on a connection whose buffer is empty or missing are handed
    on in arrival order with the 60th, and the buffer is emptied. *)
Lemma basic_feed_flush (s : Basic.state) (ws : conn) (wav_ok : bool)
    (ps : list string) :
  Basic.buffered s ws = [] →
  length ps = 60 →
  ∃ s', Basic.run s (Basic.feed ws wav_ok ps) = Some s' ∧
        Basic.audioChunks s' !! ws = Some [] ∧
        Basic.calls s' =
          Basic.calls s ++ ToWav ws (map Buffer_from ps)
                        :: (if wav_ok then [Whisper ws] else []) ∧
        Basic.pending s' =
          Basic.pending s ++ (if wav_ok then [Basic.AwaitSTT ws] else []).
Proof.
  intros Hempty Hlen.
  destruct ps as [|p0 ps0] using rev_ind; [discriminate|]. clear IHps0.
  rewrite length_app in Hlen. cbn in Hlen.
  destruct (basic_feed_below ws wav_ok ps0 s)
    as (s1 & Hrun & Hb & Hc & Hp & _); [rewrite Hempty; cbn; lia|].
  rewrite Hempty in Hb. cbn in Hb.
  unfold Basic.feed. rewrite map_app, basic_run_app.
  fold (Basic.feed ws wav_ok ps0). rewrite Hrun.
  cbn [mbind option_bind map Basic.run Basic.step Basic.on_message].
  rewrite basic_on_media_flush by (rewrite Hb, length_map; lia).
  eexists. split; [reflexivity|]. split; [|split].
  - destruct wav_ok; cbn; apply lookup_insert_eq.
  - rewrite Hb, map_app.
    destruct wav_ok; cbn; rewrite Hc, <- ?app_assoc; reflexivity.
  - destruct wav_ok; cbn; rewrite Hp, ?app_nil_r; reflexivity.
Qed.

(** C1 on [server.js]: 120 frames arrive and no transcript has come back;
    two runs of the connection are in flight. *)
Lemma basic_overlapping_runs :
  ∃ s, Basic.run Basic.initial
         (Basic.feed 0 true (replicate 120 "AAAA")) = Some s ∧
       Basic.in_flight s 0 = 2.
Proof. eexists. split; vm_compute; reflexivity. Qed.

(** C7 on [server.js]. *)
Lemma basic_empty_transcript_stops (s : Basic.state) (i : nat)
    (ws : conn) (r : response (option string)) :
  Basic.pending s !! i = Some (Basic.AwaitSTT ws) →
  whisperSTT r = Returns "" →
  Basic.step s (Basic.Resume i (Transcribed r))
    = Some (Basic.set_pending (delete i (Basic.pending s)) s).
Proof. intros Hi Hr. cbn. rewrite Hi. cbn. rewrite Hr. reflexivity. Qed.

(** C4 on [server.js]: an error status is logged and the reply is read
    from the body all the same; when the body has none, the fixed sentence
    is synthesized. *)
Lemma basic_chat_error_still_speaks (s : Basic.state) (ws : conn)
    (body : option string) :
  Basic.continue (Basic.AwaitChat ws) (Replied (Response false body)) s
    = Some (Basic.suspend (Basic.AwaitTTS ws)
              (Basic.log (Eleven ws (or_else body "Sorry, I missed that.")) s)).
Proof. reflexivity. Qed.

(** * Further properties of the code *)

Import Config Invariants.

(** ** Configuration values *)

Lemma append_cons (c : ascii) (a b : string) :
  String c a +:+ b = String c (a +:+ b).
Proof. reflexivity. Qed.

Lemma append_nil_l (b : string) : "" +:+ b = b.
Proof. reflexivity. Qed.

Lemma append_assoc (a b c : string) : (a +:+ b) +:+ c = a +:+ (b +:+ c).
Proof.
  induction a as [|x a IH]; [reflexivity|].
  rewrite !append_cons. by f_equal.
Qed.

Lemma trimEnd_idemp (s : string) : trimEnd (trimEnd s) = trimEnd s.
Proof.
  induction s as [|c s IH]; cbn; [reflexivity|].
  destruct (trimEnd s) as [|d t] eqn:Ht.
  - destruct (is_space c) eqn:Hc; cbn; [reflexivity|]. by rewrite Hc.
  - cbn [trimEnd]. cbn [trimEnd] in IH. rewrite IH. reflexivity.
Qed.

Lemma trimStart_idemp (s : string) : trimStart (trimStart s) = trimStart s.
Proof.
  induction s as [|c s IH]; cbn; [reflexivity|].
  destruct (is_space c) eqn:Hc; [exact IH|]. cbn. by rewrite Hc.
Qed.

(** The start of a string that does not begin with white space survives
    [trimEnd]: what is removed is removed at the end. *)
Lemma trimStart_trimEnd (s : string) :
  trimStart s = s → trimStart (trimEnd s) = trimEnd s.
Proof.
  destruct s as [|c s]; cbn; [reflexivity|].
  destruct (is_space c) eqn:Hc.
  - intros H. exfalso.
    assert (Hlen : ∀ t, String.length (trimStart t) ≤ String.length t).
    { induction t as [|x t IHt]; cbn; [lia|].
      destruct (is_space x); cbn; lia. }
    specialize (Hlen s). rewrite H in Hlen. cbn in Hlen. lia.
  - intros _. destruct (trimEnd s); cbn; by rewrite Hc.
Qed.

Lemma trim_idemp (s : string) : trim (trim s) = trim s.
Proof.
  unfold trim. rewrite trimStart_trimEnd by apply trimStart_idemp.
  apply trimEnd_idemp.
Qed.

(** X1. Whatever the variable holds and whatever the prefix, the value
    [cleanVar] returns has no white space at its start or at its end:
    trimming it again changes nothing. *)
Theorem cleanVar_is_trimmed (val : option string) (prefix : string) :
  trim (cleanVar val prefix) = cleanVar val prefix.
Proof.
  unfold cleanVar. cbn zeta.
  destruct (truthy prefix && startsWith _ _); apply trim_idemp.
Qed.

(** White space in front of a string goes with [trimStart]. *)
Lemma trimStart_blank_app (pad s : string) :
  trimStart pad = "" → trimStart (pad +:+ s) = trimStart s.
Proof.
  induction pad as [|c pad IH]; [reflexivity|].
  rewrite append_cons. cbn. destruct (is_space c); [exact IH | discriminate].
Qed.

Lemma trimStart_fixed_app (a b : string) :
  a ≠ "" → trimStart a = a → trimStart (a +:+ b) = a +:+ b.
Proof.
  destruct a as [|c a]; [done|]. intros _. rewrite append_cons. cbn.
  destruct (is_space c) eqn:Hc; [|reflexivity].
  intros H. exfalso.
  assert (Hlen : ∀ t, String.length (trimStart t) ≤ String.length t).
  { induction t as [|x t IHt]; cbn; [lia|].
    destruct (is_space x); cbn; lia. }
  specialize (Hlen a). rewrite H in Hlen. cbn in Hlen. lia.
Qed.

Lemma trimEnd_app (a b : string) :
  trimEnd (a +:+ b)
    = match trimEnd b with
      | EmptyString => trimEnd a
      | t => a +:+ t
      end.
Proof.
  induction a as [|c a IH].
  - rewrite append_nil_l. destruct (trimEnd b); reflexivity.
  - rewrite append_cons. cbn [trimEnd]. rewrite IH.
    destruct (trimEnd b) as [|d t]; [reflexivity|].
    rewrite !append_cons.
    destruct a; reflexivity.
Qed.

Lemma trimEnd_blank (pad : string) : trimStart pad = "" → trimEnd pad = "".
Proof.
  induction pad as [|c pad IH]; [reflexivity|]. cbn.
  destruct (is_space c); [|discriminate]. intros H. by rewrite IH.
Qed.

Lemma startsWith_app (p r : string) : startsWith (p +:+ r) p = true.
Proof.
  induction p as [|c p IH]; [reflexivity|]. rewrite append_cons. cbn.
  rewrite Ascii.eqb_refl. exact IH.
Qed.

Lemma slice_from_app (p r : string) :
  slice_from (String.length p) (p +:+ r) = r.
Proof. induction p as [|c p IH]; [reflexivity | exact IH]. Qed.

Lemma length_append (a b : string) :
  String.length (a +:+ b) = String.length a + String.length b.
Proof.
  induction a as [|c a IH]; [reflexivity|]. rewrite append_cons. cbn.
  by rewrite IH.
Qed.

Lemma trim_padded (pad1 pad2 s : string) :
  trimStart pad1 = "" → trimStart pad2 = "" → trimmed s →
  trim (pad1 +:+ s +:+ pad2) = s.
Proof.
  intros H1 H2 [Hs He]. unfold trim. rewrite trimStart_blank_app by done.
  destruct s as [|c s].
  - rewrite append_nil_l, H2. reflexivity.
  - rewrite trimStart_fixed_app by done.
    rewrite trimEnd_app, trimEnd_blank by done. exact He.
Qed.

Lemma append_nil_r (a : string) : a +:+ "" = a.
Proof.
  induction a as [|c a IH]; [reflexivity|]. rewrite append_cons. by f_equal.
Qed.

(** X2. A variable pasted with its name, [KEY=value], with white space
    before the name, around the value or after it, is cleaned to the
    value. *)
Theorem cleanVar_strips_pasted_key (key value pad1 pad2 pad3 : string) :
  key ≠ "" → trimStart key = key →
  trimmed value →
  trimStart pad1 = "" → trimStart pad2 = "" → trimStart pad3 = "" →
  cleanVar (Some (pad1 +:+ key +:+ "=" +:+ pad2 +:+ value +:+ pad3)) key
    = value.
Proof.
  intros Hk Hks Hv H1 H2 H3. unfold cleanVar. cbn zeta.
  assert (Hne : ∀ t, truthy (pad1 +:+ key +:+ t) = true).
  { intros t. destruct key as [|c key]; [done|].
    destruct pad1; reflexivity. }
  unfold or_else. rewrite Hne.
  set (inner := match value with
                | EmptyString => EmptyString
                | _ => pad2 +:+ value
                end).
  assert (Hin : trimEnd (pad2 +:+ value +:+ pad3) = inner).
  { rewrite trimEnd_app, trimEnd_app, (trimEnd_blank pad3) by done.
    destruct Hv as [_ ->]. unfold inner.
    destruct value; [by apply trimEnd_blank | reflexivity]. }
  assert (Hv' : trim (pad1 +:+ key +:+ "=" +:+ pad2 +:+ value +:+ pad3)
                = (key +:+ "=") +:+ inner).
  { unfold trim. rewrite trimStart_blank_app by done.
    rewrite trimStart_fixed_app by done.
    rewrite trimEnd_app.
    change ("=" +:+ pad2 +:+ value +:+ pad3)
      with (String "="%char (pad2 +:+ value +:+ pad3)).
    cbn [trimEnd]. rewrite Hin, append_assoc.
    destruct inner; reflexivity. }
  rewrite Hv'.
  replace (truthy key) with true by (by destruct key).
  rewrite startsWith_app. cbn [andb].
  replace (String.length key + 1) with (String.length (key +:+ "="))
    by (rewrite length_append; reflexivity).
  rewrite slice_from_app. unfold inner.
  destruct value as [|c v] eqn:Hval; [reflexivity|]. rewrite <- Hval in *.
  rewrite <- (append_nil_r value) at 1.
  apply (trim_padded pad2 "" value); done.
Qed.

Lemma cleanVar_strips_pasted_key_witness :
  "OPENAI_API_KEY" ≠ "" ∧ trimStart "OPENAI_API_KEY" = "OPENAI_API_KEY" ∧
  trimmed "sk-123" ∧
  cleanVar (Some ("  " +:+ "OPENAI_API_KEY" +:+ "=" +:+ " "
                    +:+ "sk-123" +:+ String "010"%char ""))
    "OPENAI_API_KEY" = "sk-123".
Proof.
  split; [discriminate|]. split; [reflexivity|]. split; [split; reflexivity|].
  apply (cleanVar_strips_pasted_key "OPENAI_API_KEY" "sk-123" "  " " "
           (String "010"%char "")); try reflexivity; try discriminate.
  split; reflexivity.
Defined.

(** ** The whitelist *)

Lemma split_comma_nonempty (s : string) : split_comma s ≠ [].
Proof.
  destruct s as [|c s]; cbn; [done|].
  destruct (Ascii.eqb c ","); [done|]. destruct (split_comma s); done.
Qed.

Lemma split_comma_free (e : string) :
  comma_free e = true → split_comma e = [e].
Proof.
  induction e as [|c e IH]; [reflexivity|]. cbn.
  destruct (Ascii.eqb c ","); [discriminate|]. cbn. intros H.
  by rewrite IH.
Qed.

Lemma split_comma_app (e rest : string) :
  comma_free e = true →
  split_comma (e +:+ "," +:+ rest) = e :: split_comma rest.
Proof.
  induction e as [|c e IH]; [reflexivity|]. rewrite append_cons. cbn.
  destruct (Ascii.eqb c ","); [discriminate|]. cbn. intros H.
  by rewrite IH.
Qed.

Lemma split_comma_concat (es : list string) :
  es ≠ [] → Forall (λ e, comma_free e = true) es →
  split_comma (String.concat "," es) = es.
Proof.
  induction es as [|e es IH]; [done|]. intros _ Hf.
  apply Forall_cons in Hf as [He Hf]. destruct es as [|e' es].
  - cbn. by apply split_comma_free.
  - change (String.concat "," (e :: e' :: es))
      with (e +:+ "," +:+ String.concat "," (e' :: es)).
    rewrite split_comma_app by done. f_equal. by apply IH.
Qed.

(** X3. For entries without commas, the whitelist read from the entries
    joined by commas holds the trimmed entries that are not empty, in
    their order. *)
Theorem whitelist_of_joined_entries (es : list string) :
  es ≠ [] → Forall (λ e, comma_free e = true) es →
  whitelist_entries (String.concat "," es) = List.filter truthy (map trim es).
Proof.
  intros Hne Hf. unfold whitelist_entries. by rewrite split_comma_concat.
Qed.

Lemma whitelist_of_joined_entries_witness :
  [" +15550001 "; ""; "+15550002"] ≠ [] ∧
  Forall (λ e, comma_free e = true) [" +15550001 "; ""; "+15550002"] ∧
  whitelist_entries " +15550001 ,,+15550002" = ["+15550001"; "+15550002"].
Proof.
  split; [discriminate|]. split; [repeat constructor|].
  apply (whitelist_of_joined_entries [" +15550001 "; ""; "+15550002"]).
  - discriminate.
  - repeat constructor.
Defined.

Lemma reject_is_not_stream (wsUrl : string) :
  reject_markup ≠ stream_markup wsUrl.
Proof. cbv. discriminate. Qed.

Lemma whitelist_size (CW : string) :
  size (whitelist_of CW) = 0 ↔ whitelist_entries CW = [].
Proof.
  unfold whitelist_of. rewrite size_empty_iff. split.
  - intros H. destruct (whitelist_entries CW) as [|e es]; [done|].
    exfalso. assert (He : e ∈ (list_to_set (e :: es) : gset string)).
    { apply elem_of_list_to_set. left. }
    rewrite H in He. set_solver.
  - intros ->. reflexivity.
Qed.

(** X4. When [CALLER_WHITELIST] holds nothing but commas and white space,
    every request is answered with the markup that opens the stream to
    the host of the request, whoever calls and even without a caller. *)
Theorem voice_open_when_whitelist_blank (CW : string)
    (from host : option string) :
  Forall (λ e, trim e = "") (split_comma CW) →
  voice (whitelist_of CW) from host
    = stream_markup ("wss://" +:+ interpolate host +:+ "/twilio/stream").
Proof.
  intros Hb. unfold voice.
  assert (He : whitelist_entries CW = []).
  { unfold whitelist_entries. induction Hb as [|e es He _ IH]; [done|].
    cbn. by rewrite He. }
  apply whitelist_size in He. rewrite He. reflexivity.
Qed.

Lemma voice_open_when_whitelist_blank_witness :
  Forall (λ e, trim e = "") (split_comma " , ,") ∧
  voice (whitelist_of " , ,") (Some "+15550009") (Some "relay.example")
    = stream_markup ("wss://" +:+ "relay.example" +:+ "/twilio/stream").
Proof.
  split; [repeat constructor|].
  apply (voice_open_when_whitelist_blank " , ," (Some "+15550009")
           (Some "relay.example")).
  repeat constructor.
Defined.

Lemma voice_reject_iff (CW : string)
    (from host : option string) :
  voice (whitelist_of CW) from host = reject_markup ↔
  whitelist_entries CW ≠ [] ∧
  ∀ f, from = Some f → f ∉ whitelist_entries CW.
Proof.
  unfold voice.
  destruct (Nat.eqb (size (whitelist_of CW)) 0) eqn:Hs; cbn [negb andb].
  - apply Nat.eqb_eq, whitelist_size in Hs. split.
    + intros H. symmetry in H. by apply reject_is_not_stream in H.
    + by intros [? _].
  - apply Nat.eqb_neq in Hs. rewrite whitelist_size in Hs.
    destruct from as [f|]; cbn.
    + case_bool_decide as Hin; cbn.
      * unfold whitelist_of in Hin. rewrite elem_of_list_to_set in Hin. split.
        -- intros H. symmetry in H. by apply reject_is_not_stream in H.
        -- intros [_ H]. by destruct (H f).
      * unfold whitelist_of in Hin. rewrite elem_of_list_to_set in Hin.
        split; [|done]. intros _. split; [done|]. by intros ? [= <-].
    + split; [|done]. intros _. split; [done|]. by intros ? [=].
Qed.

Lemma voice_is_reject_or_stream (whitelist : gset string)
    (from host : option string) :
  voice whitelist from host = reject_markup ∨
  voice whitelist from host
    = stream_markup ("wss://" +:+ interpolate host +:+ "/twilio/stream").
Proof.
  unfold voice. destruct (negb _ && negb _); [by left | by right].
Qed.

(** X5. The webhook answers with the rejection markup exactly when the
    whitelist has an entry and the caller is none of its entries (or the
    request names no caller); the entries are compared as they are after
    trimming, the caller as it is sent. In every other case, and only
    then, it answers with the markup that opens the stream to the host of
    the request. *)
Theorem voice_rejects_exactly_unlisted (CW : string)
    (from host : option string) :
  (voice (whitelist_of CW) from host = reject_markup ↔
   whitelist_entries CW ≠ [] ∧
   ∀ f, from = Some f → f ∉ whitelist_entries CW) ∧
  (voice (whitelist_of CW) from host
     = stream_markup ("wss://" +:+ interpolate host +:+ "/twilio/stream") ↔
   ¬ (whitelist_entries CW ≠ [] ∧
      ∀ f, from = Some f → f ∉ whitelist_entries CW)).
Proof.
  pose proof (voice_reject_iff CW from host) as Hiff.
  split; [exact Hiff|]. split.
  - intros Hs Hc. apply Hiff in Hc. rewrite Hc in Hs.
    by apply reject_is_not_stream in Hs.
  - intros Hn.
    destruct (voice_is_reject_or_stream (whitelist_of CW) from host)
      as [Hr | Hs]; [|exact Hs].
    by apply Hiff in Hr.
Qed.

Lemma voice_rejects_exactly_unlisted_witness :
  voice (whitelist_of "+15550001, +15550002") (Some "+15550003")
    (Some "relay.example") = reject_markup ∧
  voice (whitelist_of "+15550001, +15550002") (Some "+15550002")
    (Some "relay.example")
    = stream_markup ("wss://" +:+ "relay.example" +:+ "/twilio/stream").
Proof.
  split.
  - apply (proj1 (voice_rejects_exactly_unlisted "+15550001, +15550002"
                    (Some "+15550003") (Some "relay.example"))).
    split; [discriminate|]. intros f [= <-] Hin.
    apply list_elem_of_In in Hin. cbn in Hin.
    destruct Hin as [H | [H | []]]; discriminate H.
  - apply (proj2 (voice_rejects_exactly_unlisted "+15550001, +15550002"
                    (Some "+15550002") (Some "relay.example"))).
    intros [_ Hn]. apply (Hn "+15550002"); [reflexivity|].
    apply list_elem_of_In. cbn. right. left. reflexivity.
Defined.

(** ** The URL of the chat request *)

Lemma collapse_cons (st : bool) (c : ascii) (rest : string) :
  collapse st (String c rest) =
    if st && Ascii.eqb c "/" then collapse true rest
    else if double_slash rest && negb (Ascii.eqb c ":") then
      String c (String "/" (collapse true rest))
    else String c (collapse false rest).
Proof. reflexivity. Qed.

Lemma double_slash_app (b t : string) (c : ascii) :
  c ≠ "/"%char →
  double_slash (b +:+ String c t) = double_slash (b +:+ String c "").
Proof.
  intros Hc. apply Ascii.eqb_neq in Hc.
  destruct b as [|y [|z b]]; rewrite ?append_cons, ?append_nil_l; cbn;
    rewrite ?Hc, ?andb_false_r; reflexivity.
Qed.

(** What [collapse] makes of a string up to a code unit that is not a
    slash does not depend on what follows that code unit. *)
Lemma collapse_app (b : string) (c : ascii) :
  c ≠ "/"%char →
  ∀ st, ∃ out, ∀ t,
    collapse st (b +:+ String c t) = out +:+ collapse false (String c t).
Proof.
  intros Hc. induction b as [|x b IH]; intros st.
  - exists "". intros t. rewrite !append_nil_l, !collapse_cons.
    apply Ascii.eqb_neq in Hc. rewrite Hc, andb_false_r. reflexivity.
  - destruct (st && Ascii.eqb x "/") eqn:Hst.
    + destruct (IH true) as [out Hout]. exists out. intros t.
      rewrite append_cons, collapse_cons, Hst. apply Hout.
    + destruct (double_slash (b +:+ String c "") && negb (Ascii.eqb x ":"))
        eqn:Hd.
      * destruct (IH true) as [out Hout].
        exists (String x (String "/" out)). intros t.
        rewrite append_cons, collapse_cons, Hst, double_slash_app, Hd by done.
        rewrite Hout. reflexivity.
      * destruct (IH false) as [out Hout]. exists (String x out). intros t.
        rewrite append_cons, collapse_cons, Hst, double_slash_app, Hd by done.
        rewrite Hout. reflexivity.
Qed.

Lemma collapse_skip_slashes (n : nat) (t : string) :
  collapse true (slashes n +:+ t) = collapse true t.
Proof. induction n as [|n IH]; [reflexivity | exact IH]. Qed.

Lemma slashes_snoc (n : nat) (t : string) :
  slashes n +:+ String "/" t = String "/" (slashes n +:+ t).
Proof.
  induction n as [|n IH]; [reflexivity|].
  cbn [slashes]. rewrite !append_cons. by rewrite IH.
Qed.

Lemma collapse_skip_nonslash (t : string) :
  starts_slash t = false → collapse true t = collapse false t.
Proof.
  destruct t as [|a t]; [reflexivity|]. cbn [starts_slash]. intros Ha.
  rewrite (collapse_cons true a), (collapse_cons false a), Ha. reflexivity.
Qed.

Lemma collapse_one_slash (c : ascii) (t : string) :
  starts_slash t = false →
  collapse false (String c (String "/" t))
    = String c (String "/" (collapse false t)).
Proof.
  intros Ht. rewrite (collapse_cons false c). cbn [andb double_slash].
  rewrite Ht, andb_false_r. cbn [andb].
  rewrite (collapse_cons false "/" t). cbn [andb].
  replace (double_slash t) with false; [reflexivity|].
  destruct t as [|a t]; [reflexivity|]. cbn in Ht |- *. by rewrite Ht.
Qed.

Lemma collapse_many_slashes (c : ascii) (k : nat) (t : string) :
  c ≠ ":"%char → starts_slash t = false →
  collapse false (String c (String "/" (String "/" (slashes k +:+ t))))
    = String c (String "/" (collapse false t)).
Proof.
  intros Hc Ht. apply Ascii.eqb_neq in Hc.
  rewrite (collapse_cons false c). cbn [andb double_slash starts_slash].
  rewrite Ascii.eqb_refl, Hc. cbn [andb negb]. do 2 f_equal.
  change (String "/" (String "/" (slashes k +:+ t)))
    with (slashes (S (S k)) +:+ t).
  rewrite collapse_skip_slashes. by apply collapse_skip_nonslash.
Qed.

(** X6. Slashes at the end of the base URL do not change the URL of the
    chat request, when the base URL ends, before them, with a code unit
    other than a slash or a colon. *)
Theorem chat_url_ignores_trailing_slashes (b : string) (c : ascii) (n : nat) :
  c ≠ "/"%char → c ≠ ":"%char →
  chat_url (b +:+ String c (slashes n)) = chat_url (b +:+ String c "").
Proof.
  intros Hs Hc. unfold chat_url.
  destruct (collapse_app b c Hs false) as [out Hout].
  rewrite !append_assoc, !append_cons, !Hout. f_equal.
  change ("/chat/completions") with (String "/" "chat/completions").
  rewrite slashes_snoc, append_nil_l.
  rewrite (collapse_one_slash c "chat/completions") by reflexivity.
  destruct n as [|n].
  - by apply collapse_one_slash.
  - by apply collapse_many_slashes.
Qed.

Lemma chat_url_ignores_trailing_slashes_witness :
  "1"%char ≠ "/"%char ∧ "1"%char ≠ ":"%char ∧
  chat_url "https://api.openai.com/v1//"
    = chat_url "https://api.openai.com/v1".
Proof.
  split; [discriminate|]. split; [discriminate|].
  apply (chat_url_ignores_trailing_slashes "https://api.openai.com/v" "1" 2);
    discriminate.
Defined.

Lemma starts_slash_collapse_true (s : string) :
  starts_slash (collapse true s) = false.
Proof.
  induction s as [|c rest IH]; [reflexivity|]. rewrite collapse_cons.
  cbn [andb]. destruct (Ascii.eqb c "/") eqn:Hc; [exact IH|].
  destruct (double_slash rest && negb (Ascii.eqb c ":")); cbn; exact Hc.
Qed.

Lemma starts_slash_collapse (s : string) :
  starts_slash (collapse false s) = starts_slash s.
Proof.
  destruct s as [|c rest]; [reflexivity|]. rewrite collapse_cons. cbn [andb].
  destruct (double_slash rest && negb (Ascii.eqb c ":")); reflexivity.
Qed.

Lemma double_slash_collapse (s : string) :
  double_slash (collapse false s) = double_slash s.
Proof.
  destruct s as [|c rest]; [reflexivity|]. rewrite collapse_cons. cbn [andb].
  destruct (double_slash rest && negb (Ascii.eqb c ":")) eqn:Hd.
  - apply andb_prop in Hd as [Hd _]. cbn.
    destruct rest as [|a r]; [discriminate|]. cbn in Hd |- *.
    apply andb_prop in Hd as [-> _]. reflexivity.
  - cbn. by rewrite starts_slash_collapse.
Qed.

Lemma collapse_idemp_both (s : string) :
  collapse false (collapse false s) = collapse false s ∧
  collapse false (collapse true s) = collapse true s.
Proof.
  induction s as [|c rest [IHn IHt]]; [split; reflexivity|].
  assert (Hn : collapse false (collapse false (String c rest))
               = collapse false (String c rest)).
  { rewrite (collapse_cons false c rest). cbn [andb].
    destruct (double_slash rest && negb (Ascii.eqb c ":")) eqn:Hd.
    - rewrite collapse_cons. cbn [andb double_slash].
      rewrite starts_slash_collapse_true, andb_false_r. cbn [andb].
      rewrite collapse_cons. cbn [andb].
      destruct (collapse true rest) as [|a r] eqn:Ht.
      + reflexivity.
      + pose proof (starts_slash_collapse_true rest) as Hs.
        rewrite Ht in Hs. cbn in Hs. cbn [double_slash]. rewrite Hs.
        cbn [andb]. by rewrite IHt.
    - rewrite collapse_cons. cbn [andb].
      rewrite double_slash_collapse, Hd, IHn. reflexivity. }
  split; [exact Hn|].
  rewrite (collapse_cons true c rest).
  destruct (Ascii.eqb c "/") eqn:Hc; cbn [andb]; [exact IHt|].
  rewrite (collapse_cons false c rest) in Hn. exact Hn.
Qed.

(** X7. The URL of the chat request has no slashes left to collapse:
    normalising it again gives the same URL. *)
Theorem chat_url_is_normal (OPENAI_BASE_URL : string) :
  collapse false (chat_url OPENAI_BASE_URL) = chat_url OPENAI_BASE_URL.
Proof. apply collapse_idemp_both. Qed.

(** ** More on the history store *)

(** X10. On its own, the loop that removes the entry at index 1 while the
    history has more than 21 entries leaves the first entry and the last
    20, in their order. *)
Lemma shift_oldest_keeps_first_and_last_20 (history : list message) :
  21 ≤ length history →
  shift_oldest history = take 1 history ++ drop (length history - 20) history.
Proof.
  funelim (shift_oldest history); intros Hlen.
  - assert (Hs : splice history 1 1 [] = take 1 history ++ drop 2 history).
    { change 1%Z with (Z.of_nat 1). rewrite splice_spec by lia. reflexivity. }
    rewrite Hs in *.
    rewrite H by (rewrite length_app, length_take, length_drop; lia).
    rewrite length_app, length_take, length_drop.
    rewrite take_app_le by (rewrite length_take; lia).
    rewrite take_take. f_equal.
    rewrite drop_app_ge by (rewrite length_take; lia).
    rewrite length_take, drop_drop. f_equal. lia.
  - assert (length history = 21) as -> by lia. cbn [Nat.sub].
    symmetry. apply take_drop.
Qed.

Lemma shift_oldest_keeps_first_and_last_20_witness :
  21 ≤ length (replicate 25 (mk_message "user" "x")) ∧
  length (shift_oldest (replicate 25 (mk_message "user" "x"))) = 21.
Proof.
  split; [cbn; lia|].
  rewrite (shift_oldest_keeps_first_and_last_20
             (replicate 25 (mk_message "user" "x"))); [reflexivity | cbn; lia].
Defined.

(** X8. Pruning twice is pruning once. *)
Theorem prune_idempotent (history : list message) :
  prune (prune history) = prune history.
Proof.
  destruct (decide (11 < length history)) as [Hlong|Hshort].
  - rewrite (prune_long history) by done.
    set (r := drop (length history - 10) history).
    assert (Hr : length r = 10) by (unfold r; rewrite length_drop; lia).
    assert (Ht : length (take 1 history) = 1) by (rewrite length_take; lia).
    assert (Hd : drop 11 (take 1 history ++ r ++ r) = r).
    { rewrite app_assoc. apply drop_app_length'. rewrite length_app. lia. }
    rewrite prune_long by (rewrite !length_app; lia).
    rewrite !length_app, Ht, Hr. cbn [Nat.add Nat.sub].
    rewrite take_app_length' by done. rewrite Hd. reflexivity.
  - rewrite !prune_short by (rewrite ?prune_short; lia). reflexivity.
Qed.

(** X9. The prune block keeps the ten most recent messages as the last ten
    entries, in their order, and every entry it leaves was in the history
    before. *)
Theorem prune_keeps_recent_and_invents_nothing (history : list message) :
  (10 ≤ length history →
   drop (length (prune history) - 10) (prune history)
     = drop (length history - 10) history) ∧
  (∀ m, m ∈ prune history → m ∈ history).
Proof.
  destruct (decide (11 < length history)) as [Hlong|Hshort].
  - rewrite prune_length by done. rewrite prune_long by done. split.
    + intros _. rewrite app_assoc.
      apply drop_app_length'. rewrite length_app, length_take, length_drop.
      lia.
    + intros m. rewrite !elem_of_app.
      intros [H | [H | H]];
        [by apply (subseteq_take 1) | by eapply subseteq_drop..].
  - rewrite prune_short by lia. done.
Qed.

Lemma prune_keeps_recent_and_invents_nothing_witness :
  10 ≤ length (replicate 15 (mk_message "user" "x")) ∧
  drop (length (prune (replicate 15 (mk_message "user" "x"))) - 10)
    (prune (replicate 15 (mk_message "user" "x")))
  = drop (length (replicate 15 (mk_message "user" "x")) - 10)
      (replicate 15 (mk_message "user" "x")).
Proof.
  split; [cbn; lia|].
  apply (prune_keeps_recent_and_invents_nothing
           (replicate 15 (mk_message "user" "x"))). cbn. lia.
Defined.



(** ** More on the controller *)

(** ** Stop *)

(** X13. After [stop] none of the four maps has the connection, and a
    second [stop] changes nothing. *)
Theorem stop_clears_session_and_is_idempotent (s : state) (ws : conn) :
  audioChunks (on_stop ws s) !! ws = None ∧
  streamIds (on_stop ws s) !! ws = None ∧
  speakingUntil (on_stop ws s) !! ws = None ∧
  conversationHistory (on_stop ws s) !! ws = None ∧
  on_stop ws (on_stop ws s) = on_stop ws s.
Proof.
  destruct s as [chunks ids until refs heap tasks out reqs].
  unfold on_stop. cbn. rewrite !lookup_delete_eq, !delete_delete_eq. done.
Qed.

(** A transcript that arrives after [stop] makes no chat request. *)
(** X14. A transcript that arrives after the [stop] of its connection ends
    the run: no chat request, no synthesis request, nothing sent; the
    history of the connection is gone and [chatReply] throws on it. *)
Theorem transcript_after_stop_is_dropped (s : state) (i : nat) (ws : conn)
    (r : response (option string)) (now : Z) :
  pending s !! i = Some (AwaitSTT ws) →
  step (on_stop ws s) (Resume i (Transcribed r) now)
    = Some (set_pending (delete i (pending s)) (on_stop ws s)).
Proof.
  intros Hi. cbn. rewrite Hi. cbn. rewrite lookup_delete_eq.
  destruct (whisperSTT r) as [|transcript]; [reflexivity|].
  destruct (truthy transcript); reflexivity.
Qed.

Lemma transcript_after_stop_is_dropped_witness :
  pending (after first_utterance) !! 0 = Some (AwaitSTT 0) ∧
  step (on_stop 0 (after first_utterance)) transcript_arrives
    = Some (set_pending (delete 0 (pending (after first_utterance)))
              (on_stop 0 (after first_utterance))).
Proof.
  split; [vm_compute; reflexivity|].
  apply (transcript_after_stop_is_dropped (after first_utterance) 0 0
           (Response true (Some "turn the lights on")) 5000).
  vm_compute. reflexivity.
Defined.

(** ** Mark *)



(** ** The greeting *)

(** X16. The end of the greeting, whatever the outcome of the synthesis, of
    the conversion and of the fallback tone: the buffer of the connection
    is set to no frames, so frames that arrived during the greeting are
    discarded. The connection is muted for 2500 ms when the greeting was
    sent; when the tone or nothing was sent, its mute entry is left as it
    was. *)
Theorem greeting_end_resets_buffer (s : state) (ws : conn)
    (streamSid : option string) (r : response unit)
    (mulaw tone : option string) (now : Z) :
  ∃ s', continue (GreetTTS ws streamSid) (Synthesized r mulaw tone) now s
          = Some s' ∧
        audioChunks s' !! ws = Some [] ∧
        pending s' = pending s ∧ calls s' = calls s ∧
        match synthesize r mulaw with
        | Returns audio =>
            sent s' = sent s ++ [(ws, MediaOut streamSid audio)] ∧
            speakingUntil s' !! ws = Some (Finite (now + 2500))
        | Throws =>
            sent s' = sent s ++ match tone with
                                | Some toneAudio =>
                                    [(ws, MediaOut streamSid toneAudio)]
                                | None => []
                                end ∧
            speakingUntil s' = speakingUntil s
        end.
Proof.
  eexists. split; [reflexivity|]. cbn.
  destruct (synthesize r mulaw) as [|audio]; [destruct tone|]; cbn;
    rewrite ?lookup_insert_eq, ?app_nil_r; done.
Qed.

(** ** Runs in flight *)

Lemma filter_delete_length {A} (f : A → bool) (l : list A) : ∀ i t,
  l !! i = Some t →
  length (List.filter f (delete i l)) + (if f t then 1 else 0)
    = length (List.filter f l).
Proof.
  induction l as [|x l IH]; intros [|i] t Hi; try done.
  - injection Hi as ->. cbn. destruct (f t); cbn; lia.
  - specialize (IH i t Hi).
    change (delete (S i) (x :: l)) with (x :: delete i l). cbn [List.filter].
    destruct (f x); cbn [length]; lia.
Qed.

(** X17. Only a [media] message of a connection starts a run of that
    connection: every other step (other messages, messages of other
    connections, resumptions) leaves the number of its runs in flight as
    it is or lowers it. *)
Theorem only_media_starts_runs (s s' : state) (ws : conn) (l : label) :
  step s l = Some s' →
  media_for ws l = false →
  in_flight s' ws ≤ in_flight s ws.
Proof.
  intros Hstep Hm. revert Hstep.
  destruct l as [w | w ev now wav_ok | i o now]; cbn [step]; cbn in Hm.
  - unfold on_connection. destruct (arrays s !! w); [done|].
    by intros [= <-].
  - intros [= <-].
    destruct ev as [sid | payload | | | name]; cbn [on_message]; try done.
    + unfold on_start. rewrite in_flight_suspend. cbn [pipeline_of].
      destruct sid as [sid|]; [destruct (truthy sid)|]; unfold in_flight;
        cbn [pending set_streamIds]; lia.
    + unfold on_media. destruct (muted s w now); [done|].
      destruct (decide (60 ≤ _)); [|done]. destruct wav_ok; [|done].
      rewrite in_flight_suspend. cbn [pipeline_of]. rewrite Hm.
      unfold in_flight. cbn. lia.
  - destruct (pending s !! i) as [t|] eqn:Hi; [|done]. cbn [mbind option_bind].
    pose proof (filter_delete_length (pipeline_of ws) (pending s) i t Hi)
      as Hdel.
    fold (in_flight s ws) in Hdel.
    set (s0 := set_pending (delete i (pending s)) s).
    assert (H0 : in_flight s0 ws + (if pipeline_of ws t then 1 else 0)
                 = in_flight s ws) by exact Hdel.
    clearbody s0. clear Hdel.
    destruct t as [w sid | w sid | w | w h | w], o as [| r | r | r mulaw tone];
      cbn [continue]; try done.
    + intros [= <-]. rewrite in_flight_suspend. cbn [pipeline_of] in *.
      unfold in_flight in *. cbn. lia.
    + intros [= <-]. cbn [pipeline_of] in *.
      destruct (synthesize r mulaw); [destruct tone|]; unfold in_flight in *;
        cbn; lia.
    + cbn [pipeline_of] in *.
      destruct (whisperSTT r) as [|transcript]; [intros [= <-]; lia|].
      destruct (truthy transcript); [|intros [= <-]; lia].
      destruct (conversationHistory s0 !! w) as [h|]; [|intros [= <-]; lia].
      destruct (arrays s0 !! h); cbn [mbind option_bind]; [|done].
      intros [= <-]. rewrite in_flight_suspend. cbn [pipeline_of].
      unfold in_flight in *. cbn. lia.
    + cbn [pipeline_of] in *.
      destruct (arrays s0 !! h) as [history|]; [|done].
      cbn [mbind option_bind].
      destruct (chatReply_response r history) as [history1 [|v]];
        intros [= <-].
      * unfold in_flight in *. cbn. lia.
      * rewrite in_flight_suspend. cbn [pipeline_of].
        unfold in_flight in *. cbn. lia.
    + cbn [pipeline_of] in *.
      destruct (synthesize r mulaw); intros [= <-]; unfold in_flight in *;
        cbn; lia.
Qed.

Lemma only_media_starts_runs_witness :
  step (after first_utterance) transcript_arrives
    = Some (after (first_utterance ++ [transcript_arrives])) ∧
  media_for 0 transcript_arrives = false ∧
  in_flight (after (first_utterance ++ [transcript_arrives])) 0
    ≤ in_flight (after first_utterance) 0.
Proof.
  split; [vm_compute; reflexivity|]. split; [reflexivity|].
  apply (only_media_starts_runs (after first_utterance)
           (after (first_utterance ++ [transcript_arrives])) 0
           transcript_arrives).
  - vm_compute. reflexivity.
  - reflexivity.
Defined.

(** ** Invariants of the reachable states *)

Lemma run_invariant (P : state → Prop) :
  (∀ s s' l, P s → step s l = Some s' → P s') →
  ∀ ls s s', P s → run s ls = Some s' → P s'.
Proof.
  intros Hstep. induction ls as [|l ls IH]; intros s s' HP; cbn.
  - by intros [= <-].
  - destruct (step s l) as [s1|] eqn:Hs; [|done]. cbn.
    apply IH. by eapply Hstep.
Qed.

Lemma step_buffers_bounded (s s' : state) (l : label) :
  buffers_bounded s → step s l = Some s' → buffers_bounded s'.
Proof.
  intros Hb Hstep ws. specialize (Hb ws).
  destruct (touches_buffer s ws l) eqn:Ht.
  - revert Hstep.
    unfold touches_buffer in Ht.
    destruct l as [w | w ev now wav_ok | i o now]; cbn [step];
      cbn in Ht; [done| |].
    + intros [= <-].
      destruct ev as [sid | payload | | | name]; try discriminate Ht;
        rewrite ?orb_false_r in Ht; apply bool_decide_eq_true in Ht as ->;
        cbn [on_message].
      * unfold on_media. destruct (muted s ws now) eqn:Hm; [exact Hb|].
        fold (buffered s ws).
        destruct (decide (60 ≤ _)) as [H|H].
        -- unfold buffered.
           destruct wav_ok; cbn; rewrite lookup_insert_eq; cbn; lia.
        -- rewrite buffered_set_audioChunks. lia.
      * unfold buffered. cbn. rewrite lookup_delete_eq. cbn. lia.
    + destruct (pending s !! i) as [t|]; [|done]. cbn [mbind option_bind].
      destruct t as [w sid | w sid | w | w h | w]; try discriminate Ht.
      apply bool_decide_eq_true in Ht as ->.
      destruct o as [| r | r | r mulaw tone]; cbn [continue]; try done.
      intros [= <-]. unfold buffered. cbn. rewrite lookup_insert_eq. cbn. lia.
  - unfold buffered. by erewrite other_steps_keep_buffer.
Qed.

(** X18. In every state the relay reaches, every buffer holds fewer than 60
    frames. *)
Theorem buffer_stays_under_threshold (ls : list label) (s : state)
    (ws : conn) :
  run initial ls = Some s → length (buffered s ws) < 60.
Proof.
  intros Hrun.
  apply (run_invariant buffers_bounded step_buffers_bounded ls initial s);
    [|exact Hrun].
  intros w. unfold buffered. cbn. rewrite lookup_empty. cbn. lia.
Qed.

Lemma buffer_stays_under_threshold_witness :
  run initial overlapping_utterances = Some (after overlapping_utterances) ∧
  length (buffered (after overlapping_utterances) 0) < 60.
Proof.
  split; [vm_compute; reflexivity|].
  apply (buffer_stays_under_threshold overlapping_utterances).
  vm_compute. reflexivity.
Defined.

Lemma requests_ok_log (s : state) (c : call) :
  requests_ok s → request_ok c → requests_ok (log c s).
Proof.
  intros Hs Hc. unfold requests_ok. cbn. apply Forall_app. split; [done|].
  by constructor.
Qed.

Lemma step_requests_ok (s s' : state) (l : label) :
  histories_ok s ∧ requests_ok s → step s l = Some s' →
  histories_ok s' ∧ requests_ok s'.
Proof.
  intros [Hh Hr] Hstep. split; [by eapply step_histories_ok|].
  revert Hstep.
  destruct l as [w | w ev now wav_ok | i o now]; cbn [step].
  - unfold on_connection. destruct (arrays s !! w); [done|].
    by intros [= <-].
  - intros [= <-].
    destruct ev as [sid | payload | | | name]; cbn [on_message]; try done.
    + unfold on_start.
      destruct sid as [sid|]; [destruct (truthy sid)|]; exact Hr.
    + unfold on_media. destruct (muted s w now); [done|].
      destruct (decide (60 ≤ _)); [|done].
      destruct wav_ok; repeat apply requests_ok_log; done.
  - destruct (pending s !! i) as [t|]; [|done]. cbn [mbind option_bind].
    set (s0 := set_pending (delete i (pending s)) s).
    assert (Hr0 : requests_ok s0) by exact Hr.
    assert (Hh0 : histories_ok s0) by exact Hh.
    clearbody s0.
    destruct t as [w sid | w sid | w | w h | w], o as [| r | r | r mulaw tone];
      cbn [continue]; try done.
    + intros [= <-]. by apply (requests_ok_log s0).
    + intros [= <-].
      destruct (synthesize r mulaw); [destruct tone|]; exact Hr0.
    + destruct (whisperSTT r) as [|transcript]; [by intros [= <-]|].
      destruct (truthy transcript) eqn:Htr; [|by intros [= <-]].
      destruct (conversationHistory s0 !! w) as [h|]; [|by intros [= <-]].
      destruct (arrays s0 !! h) as [history|] eqn:Harr;
        cbn [mbind option_bind]; [|done].
      intros [= <-].
      apply (requests_ok_log (set_arrays _ s0)); [exact Hr0|].
      cbn. unfold chatReply_request, push. split.
      * specialize (Hh0 h history Harr). by destruct history.
      * exists transcript. split; [done|]. apply last_snoc.
    + destruct (arrays s0 !! h) as [history|]; [|done].
      cbn [mbind option_bind].
      destruct (chatReply_response r history) as [history1 [|v]];
        intros [= <-]; [exact Hr0|].
      by apply (requests_ok_log (set_arrays _ s0)).
    + destruct (synthesize r mulaw); by intros [= <-].
Qed.

(** X12. In every state the relay reaches, every chat request it has made
    starts with the preamble and ends with a user message that is not
    empty. *)
Theorem chat_requests_are_well_formed (ls : list label) (s : state)
    (ws : conn) (messages : list message) :
  run initial ls = Some s →
  Chat ws messages ∈ calls s →
  head messages = Some preamble ∧
  ∃ text, truthy text = true ∧
          last messages = Some (mk_message "user" text).
Proof.
  intros Hrun Hin.
  assert (Hinv : histories_ok s ∧ requests_ok s).
  { apply (run_invariant _ step_requests_ok ls initial s); [|exact Hrun].
    split; [|constructor]. intros h history. cbn. by rewrite lookup_empty. }
  destruct Hinv as [_ Hr]. unfold requests_ok in Hr.
  rewrite Forall_forall in Hr. exact (Hr _ Hin).
Qed.

Lemma chat_requests_are_well_formed_witness :
  run initial chat_failure = Some (after chat_failure) ∧
  Chat 0 [preamble; mk_message "user" "turn the lights on"]
    ∈ calls (after chat_failure) ∧
  head [preamble; mk_message "user" "turn the lights on"] = Some preamble.
Proof.
  assert (Hin : Chat 0 [preamble; mk_message "user" "turn the lights on"]
                  ∈ calls (after chat_failure)).
  { apply list_elem_of_lookup. exists 3. vm_compute. reflexivity. }
  split; [vm_compute; reflexivity|]. split; [exact Hin|].
  apply (chat_requests_are_well_formed chat_failure (after chat_failure) 0
           [preamble; mk_message "user" "turn the lights on"]);
    [vm_compute; reflexivity | exact Hin].
Defined.

Lemma refs_ok_suspend (s : state) (t : task) :
  refs_ok s → (∀ w h, t = AwaitChat w h → h = w) → refs_ok (suspend t s).
Proof.
  intros [Hc Hp] Ht. split; [exact Hc|]. intros w h. cbn.
  rewrite elem_of_app, list_elem_of_singleton. intros [Hin | Heq].
  - by apply Hp.
  - by apply Ht.
Qed.

Lemma step_refs_ok (s s' : state) (l : label) :
  refs_ok s → step s l = Some s' → refs_ok s'.
Proof.
  intros Hok. pose proof Hok as [Hc Hp].
  destruct l as [w | w ev now wav_ok | i o now]; cbn [step].
  - unfold on_connection. destruct (arrays s !! w); [done|].
    intros [= <-]. split; [|exact Hp]. intros w' h. cbn.
    rewrite lookup_insert. case_decide; [by intros [= <-] | apply Hc].
  - intros [= <-].
    destruct ev as [sid | payload | | | name]; cbn [on_message]; try done.
    + unfold on_start. apply refs_ok_suspend; [|done].
      destruct sid as [sid|]; [destruct (truthy sid)|]; exact Hok.
    + unfold on_media. destruct (muted s w now); [done|].
      destruct (decide (60 ≤ _)); [|done]. destruct wav_ok; [|done].
      by apply refs_ok_suspend.
    + split; [|exact Hp]. intros w' h. cbn. rewrite lookup_delete.
      case_decide; [done | apply Hc].
  - destruct (pending s !! i) as [t|] eqn:Hi; [|done].
    cbn [mbind option_bind].
    assert (Hok0 : refs_ok (set_pending (delete i (pending s)) s)).
    { split; [exact Hc|]. intros w h Hin. apply Hp.
      by apply (list_subseteq_delete i). }
    assert (Ht : t ∈ pending s) by (apply list_elem_of_lookup; eauto).
    set (s0 := set_pending (delete i (pending s)) s) in *.
    assert (Hc0 : ∀ w h, conversationHistory s0 !! w = Some h → h = w)
      by exact Hc.
    clearbody s0.
    destruct t as [w sid | w sid | w | w h | w], o as [| r | r | r mulaw tone];
      cbn [continue]; try done.
    + intros [= <-]. by apply refs_ok_suspend.
    + intros [= <-].
      destruct (synthesize r mulaw); [destruct tone|]; exact Hok0.
    + destruct (whisperSTT r) as [|transcript]; [by intros [= <-]|].
      destruct (truthy transcript); [|by intros [= <-]].
      destruct (conversationHistory s0 !! w) as [h|] eqn:Hh;
        [|by intros [= <-]].
      destruct (arrays s0 !! h); cbn [mbind option_bind]; [|done].
      intros [= <-]. apply refs_ok_suspend; [exact Hok0|].
      intros w' h' [= <- <-]. by apply Hc0.
    + destruct (arrays s0 !! h) as [history|]; [|done].
      cbn [mbind option_bind].
      destruct (chatReply_response r history) as [history1 [|v]];
        intros [= <-]; [exact Hok0|]. by apply refs_ok_suspend.
    + destruct (synthesize r mulaw); by intros [= <-].
Qed.

Lemma step_keeps_other_sessions (s s' : state) (l : label) (w ws : conn) :
  refs_ok s →
  step s l = Some s' →
  label_conn s l = Some w →
  w ≠ ws →
  session s' ws = session s ws.
Proof.
  intros [Hc Hp] Hstep Hl Hne. revert Hstep Hl. unfold session.
  destruct l as [w' | w' ev now wav_ok | i o now]; cbn [step label_conn].
  - unfold on_connection. destruct (arrays s !! w'); [done|].
    intros [= <-] [= ->]. cbn. by rewrite !lookup_insert_ne.
  - intros [= <-] [= ->].
    destruct ev as [sid | payload | | | name]; cbn [on_message].
    + unfold on_start.
      destruct sid as [sid|]; [destruct (truthy sid)|]; cbn;
        by rewrite ?lookup_insert_ne.
    + unfold on_media. destruct (muted s w now); [done|].
      destruct (decide (60 ≤ _)); [destruct wav_ok|]; cbn;
        by rewrite lookup_insert_ne.
    + cbn. by rewrite lookup_insert_ne.
    + cbn. by rewrite !lookup_delete_ne.
    + reflexivity.
  - destruct (pending s !! i) as [t|] eqn:Hi; [|done].
    cbn [mbind option_bind fmap option_fmap option_map].
    assert (Ht : t ∈ pending s) by (apply list_elem_of_lookup; eauto).
    intros Hstep [= Ho]. revert Hstep.
    destruct t as [w' sid | w' sid | w' | w' h | w'],
             o as [| r | r | r mulaw tone];
      cbn [continue]; cbn in Ho; subst w'; try done.
    + by intros [= <-].
    + intros [= <-].
      destruct (synthesize r mulaw); [destruct tone|]; cbn;
        by rewrite ?lookup_insert_ne.
    + destruct (whisperSTT r) as [|transcript]; [by intros [= <-]|].
      destruct (truthy transcript); [|by intros [= <-]].
      cbn [conversationHistory set_pending].
      destruct (conversationHistory s !! w) as [h|] eqn:Hh;
        [|by intros [= <-]].
      apply Hc in Hh as ->. cbn [arrays set_pending].
      lazymatch goal with
      | |- ?x ≫= _ = _ → _ => destruct x as [history|]
      end; cbn [mbind option_bind]; [|done].
      intros [= <-]. cbn. by rewrite lookup_insert_ne.
    + apply Hp in Ht as ->. cbn [arrays set_pending].
      lazymatch goal with
      | |- ?x ≫= _ = _ → _ => destruct x as [history|]
      end; cbn [mbind option_bind]; [|done].
      destruct (chatReply_response r history) as [history1 [|v]];
        intros [= <-]; cbn; by rewrite lookup_insert_ne.
    + destruct (synthesize r mulaw); intros [= <-]; cbn;
        by rewrite ?lookup_insert_ne.
Qed.

(** X19. In every state the relay reaches, a step of one connection (a
    message, or the resumption of one of its invocations) changes nothing
    of what the maps hold for another connection, nor its history. *)
Theorem sessions_are_isolated (ls : list label) (s s' : state) (l : label)
    (w ws : conn) :
  run initial ls = Some s →
  step s l = Some s' →
  label_conn s l = Some w →
  w ≠ ws →
  session s' ws = session s ws.
Proof.
  intros Hrun. apply step_keeps_other_sessions.
  apply (run_invariant refs_ok step_refs_ok ls initial s); [|exact Hrun].
  split; intros w' h; cbn; [by rewrite lookup_empty | by intros ?%elem_of_nil].
Qed.

Lemma sessions_are_isolated_witness :
  run initial first_utterance = Some (after first_utterance) ∧
  step (after first_utterance) other_stops
    = Some (on_stop 1 (after first_utterance)) ∧
  session (on_stop 1 (after first_utterance)) 0
    = session (after first_utterance) 0.
Proof.
  split; [vm_compute; reflexivity|]. split; [reflexivity|].
  apply (sessions_are_isolated first_utterance (after first_utterance)
           (on_stop 1 (after first_utterance)) other_stops 1 0).
  - vm_compute. reflexivity.
  - reflexivity.
  - reflexivity.
  - discriminate.
Defined.

(** ** More on the relay without memory *)

Lemma basic_run_invariant (P : Basic.state → Prop) :
  (∀ s s' l, P s → Basic.step s l = Some s' → P s') →
  ∀ ls s s', P s → Basic.run s ls = Some s' → P s'.
Proof.
  intros Hstep. induction ls as [|l ls IH]; intros s s' HP; cbn.
  - by intros [= <-].
  - destruct (Basic.step s l) as [s1|] eqn:Hs; [|done]. cbn.
    apply IH. by eapply Hstep.
Qed.

Lemma basic_step_invariants (s s' : Basic.state) (l : Basic.label) :
  BasicInvariants.requests_ok s ∧ BasicInvariants.buffers_bounded s →
  Basic.step s l = Some s' →
  BasicInvariants.requests_ok s' ∧ BasicInvariants.buffers_bounded s'.
Proof.
  intros [Hr Hb].
  assert (Hlog : ∀ s c, BasicInvariants.requests_ok s →
            BasicInvariants.request_ok c →
            BasicInvariants.requests_ok (Basic.log c s)).
  { intros s1 c H1 H2. unfold BasicInvariants.requests_ok. cbn.
    apply Forall_app. split; [done | by constructor]. }
  destruct l as [w ev wav_ok | i o]; cbn [Basic.step].
  - intros [= <-].
    destruct ev as [sid | payload | | | name]; cbn [Basic.on_message];
      try done.
    + unfold Basic.on_start.
      destruct sid as [sid|]; [destruct (truthy sid)|]; done.
    + unfold Basic.on_media. fold (Basic.buffered s w).
      destruct (decide (60 ≤ _)) as [H|H].
      * split.
        -- destruct wav_ok; repeat apply Hlog; done.
        -- intros ws. specialize (Hb ws). unfold Basic.buffered in *.
           destruct wav_ok; cbn; rewrite lookup_insert; case_decide; cbn;
             lia.
      * split; [exact Hr|]. intros ws. specialize (Hb ws).
        unfold Basic.buffered at 1. cbn. rewrite lookup_insert.
        case_decide; [|exact Hb]. cbn. unfold push in *.
        rewrite length_app in *. cbn in *. lia.
    + split; [exact Hr|]. intros ws. specialize (Hb ws).
      unfold Basic.buffered in *. cbn. rewrite lookup_delete.
      case_decide; [cbn; lia | exact Hb].
  - destruct (Basic.pending s !! i) as [t|]; [|done].
    cbn [mbind option_bind].
    set (s0 := Basic.set_pending (delete i (Basic.pending s)) s).
    assert (Hr0 : BasicInvariants.requests_ok s0) by exact Hr.
    assert (Hb0 : BasicInvariants.buffers_bounded s0) by exact Hb.
    clearbody s0.
    destruct t as [w sid | w sid | w | w | w], o as [| r | r | r mulaw tone];
      cbn [Basic.continue]; try done.
    + intros [= <-]. split; [by apply (Hlog s0) | exact Hb0].
    + intros [= <-]. split.
      * destruct (synthesize r mulaw); [destruct tone|]; exact Hr0.
      * intros ws. specialize (Hb0 ws). unfold Basic.buffered in *.
        destruct (synthesize r mulaw); [destruct tone|]; cbn;
          rewrite lookup_insert; case_decide; cbn; lia || exact Hb0.
    + destruct (whisperSTT r) as [|transcript]; [by intros [= <-]|].
      destruct (truthy transcript) eqn:Htr; [|by intros [= <-]].
      intros [= <-]. split; [|exact Hb0].
      apply (Hlog s0); [exact Hr0|]. by exists transcript.
    + destruct (Basic.chatReply r); intros [= <-]; [done|].
      split; [by apply (Hlog s0) | exact Hb0].
    + destruct (synthesize r mulaw); by intros [= <-].
Qed.

(** X20. In [server.js] every chat request holds the system message and
    one user message that is not empty: no turn sees an earlier one. *)
Theorem basic_turns_share_no_memory (ls : list Basic.label)
    (s : Basic.state) (ws : conn) (messages : list message) :
  Basic.run Basic.initial ls = Some s →
  Chat ws messages ∈ Basic.calls s →
  ∃ text, truthy text = true ∧
          messages = [Basic.system_message; mk_message "user" text].
Proof.
  intros Hrun Hin.
  destruct (basic_run_invariant _ basic_step_invariants ls Basic.initial s)
    as [Hr _]; [|exact Hrun|].
  - split; [constructor|]. intros w. unfold Basic.buffered. cbn.
    rewrite lookup_empty. cbn. lia.
  - unfold BasicInvariants.requests_ok in Hr. rewrite Forall_forall in Hr.
    exact (Hr _ Hin).
Qed.

Lemma basic_turns_share_no_memory_witness :
  ∃ s, Basic.run Basic.initial BasicInvariants.one_turn = Some s ∧
       Chat 0 [Basic.system_message; mk_message "user" "hello"]
         ∈ Basic.calls s ∧
       ∃ text, truthy text = true ∧
               [Basic.system_message; mk_message "user" "hello"]
                 = [Basic.system_message; mk_message "user" text].
Proof.
  eexists. split; [vm_compute; reflexivity|].
  assert (Hin : Chat 0 [Basic.system_message; mk_message "user" "hello"]
                  ∈ Basic.calls
                      (default Basic.initial
                         (Basic.run Basic.initial BasicInvariants.one_turn))).
  { apply list_elem_of_lookup. exists 2. vm_compute. reflexivity. }
  split; [exact Hin|].
  apply (basic_turns_share_no_memory BasicInvariants.one_turn
           (default Basic.initial
              (Basic.run Basic.initial BasicInvariants.one_turn)) 0
           [Basic.system_message; mk_message "user" "hello"]);
    [vm_compute; reflexivity | exact Hin].
Defined.

(** X21. In [server.js] too, every buffer of every reachable state holds
    fewer than 60 frames. *)
Theorem basic_buffer_stays_under_threshold (ls : list Basic.label)
    (s : Basic.state) (ws : conn) :
  Basic.run Basic.initial ls = Some s → length (Basic.buffered s ws) < 60.
Proof.
  intros Hrun.
  destruct (basic_run_invariant _ basic_step_invariants ls Basic.initial s)
    as [_ Hb]; [|exact Hrun|exact (Hb ws)].
  split; [constructor|]. intros w. unfold Basic.buffered. cbn.
  rewrite lookup_empty. cbn. lia.
Qed.

Lemma basic_buffer_stays_under_threshold_witness :
  ∃ s, Basic.run Basic.initial BasicInvariants.one_turn = Some s ∧
       length (Basic.buffered s 0) < 60.
Proof.
  eexists. split; [vm_compute; reflexivity|].
  apply (basic_buffer_stays_under_threshold BasicInvariants.one_turn).
  vm_compute. reflexivity.
Defined.
